(** * QDbfTableModel: the incremental record cache of qdbf

    A shallow embedding of [src/qdbftablemodel.cpp] and the properties of
    its natural-language specification.

    Conventions.
    - C++ [int] is [Z].  Two sums of the code can leave the range of
      [int] for arguments and in states the model does not exclude:
      [section + 1] in [headerData], for a section of the caller's choice,
      and [++m_deletedRecordsCount], which fetches nobody asked for drive
      on.  They are reduced to the 32 bits of an [int], two's complement
      ([int_wrap]), which is what the compiled code computes where C++
      leaves signed overflow undefined.  The other sums are between the
      counts of rows, columns and records of one table, whose size is an
      [int]; they stay in the range of [int] as long as the counter of
      deleted records has not passed the size of the table, which is so in
      every state a view that follows the protocol can reach.
    - [QVector<T>] is [list T]; [QHash<int, QVariant>] is [gmap Z QVariant.t].
    - [const] member functions are functions of the state; the other member
      functions run in the monad [M]: state passing, a trace of the calls
      made on the public object (signals, [beginInsertRows],
      [endInsertRows]), and [None] where C++ leaves the behaviour undefined,
      an index outside the vector in [QVector::at] or [QVector::operator[]].
    - [QDbfTable], the record store, is not part of the translated file.  It
      is the interface [QDbfTable] below, and the theorems of the sections
      [ReadSide], [WriteSide] and [Fetching] hold for every store.
      [SeqStore] is one store, a sequential file; the section [Sequential]
      is about the cache over it. *)

From Stdlib Require Import String Ascii.
From stdpp Require Import base numbers option list gmap.

#[local] Open Scope Z_scope.

(** ** Qt value types *)

(** [QString]: a sequence of UTF-16 code units. *)
Module QString.

Definition t : Type := list Z.

(** [QString::fromLatin1], to write literals. *)
Definition fromLatin1 (s : string) : t :=
  (λ a, Z.of_N (N_of_ascii a)) <$> list_ascii_of_string s.

(** [QChar::isSpace]: the C0 controls 9..13, the space, NEL, the
    no-break space and the Unicode separators (Zs, Zl, Zp). *)
Definition isSpace (c : Z) : bool :=
  (c =? 0x20) || ((c <=? 0x0d) && (0x09 <=? c))
  || ((127 <? c)
      && ((c =? 0x85) || (c =? 0xa0) || (c =? 0x1680)
          || ((0x2000 <=? c) && (c <=? 0x200a))
          || (c =? 0x2028) || (c =? 0x2029) || (c =? 0x202f)
          || (c =? 0x205f) || (c =? 0x3000))).

Fixpoint skipSpaces (s : t) : t :=
  match s with
  | c :: s' => if isSpace c then skipSpaces s' else s
  | [] => []
  end.

(** [QString::trimmed]: whitespace removed from the start and the end. *)
Definition trimmed (s : t) : t :=
  reverse (skipSpaces (reverse (skipSpaces s))).

End QString.

(** [QVariant], with the types a DBF field can hold.  A floating-point
    number is kept as its bit pattern: the model only moves it around. *)
Module QVariant.

Inductive t : Type :=
| Invalid
| Bool (b : bool)
| Int (n : Z)
| Double (bits : Z)
| String (s : QString.t)
| Date (julianDay : Z).

Definition isValid (v : t) : bool :=
  match v with Invalid => false | _ => true end.

End QVariant.

(** [QModelIndex]: row, column and whether it belongs to a model.  The
    default-constructed index (the root) is invalid. *)
Module QModelIndex.

Record t : Type := mk { row : Z; column : Z; hasModel : bool }.

Definition root : t := mk (-1) (-1) false.

Definition isValid (i : t) : bool :=
  (0 <=? row i) && (0 <=? column i) && hasModel i.

End QModelIndex.

Module Qt.

(** [Qt::ItemDataRole] *)
Definition DisplayRole : Z := 0.
Definition EditRole : Z := 2.

Inductive Orientation : Type := Horizontal | Vertical.

#[global] Instance Orientation_eq_dec : EqDecision Orientation.
Proof. solve_decision. Defined.

(** [Qt::ItemFlag] *)
Definition ItemIsSelectable : Z := 1.
Definition ItemIsEditable : Z := 2.
Definition ItemIsEnabled : Z := 32.

End Qt.

(** ** Records of the table *)

(** Modelled from the spec: [QDbfRecord] (qdbfrecord.h is not part of the
    translated file).  "Opaque ordered sequence of typed field values plus a
    deletion flag and a field-name lookup by column ordinal"; the record
    also knows its physical position, which the store needs to persist it.
    Accessors are total: an ordinal outside the record reads as the
    default value and is ignored by [setValue]. *)
Module QDbfRecord.

Record field : Type := mkField { name : QString.t; fieldValue : QVariant.t }.

Record t : Type := mk {
  recordIndex : Z;
  isDeleted : bool;
  fields : list field
}.

Definition empty : t := mk (-1) false [].

Definition count (r : t) : Z := Z.of_nat (length (fields r)).

Definition fieldAt (r : t) (i : Z) : option field :=
  if 0 <=? i then fields r !! Z.to_nat i else None.

Definition value (r : t) (i : Z) : QVariant.t :=
  from_option fieldValue QVariant.Invalid (fieldAt r i).

Definition fieldName (r : t) (i : Z) : QString.t :=
  from_option name [] (fieldAt r i).

Definition setValue (i : Z) (v : QVariant.t) (r : t) : t :=
  match fieldAt r i with
  | Some f =>
      mk (recordIndex r) (isDeleted r)
         (<[Z.to_nat i := mkField (name f) v]> (fields r))
  | None => r
  end.

Definition setRecordIndex (i : Z) (r : t) : t :=
  mk i (isDeleted r) (fields r).

End QDbfRecord.

(** ** Machine integers *)

(** The range of [int], and the [int] left by an addition whose exact
    result is [z]. *)
Definition INT_MIN : Z := -2147483648.
Definition INT_MAX : Z := 2147483647.

Definition int_wrap (z : Z) : Z := (z - INT_MIN) mod 2 ^ 32 + INT_MIN.

(** An [int] counter after [k] increments. *)
Fixpoint count_on (k : nat) (d : Z) : Z :=
  match k with
  | O => d
  | S k' => count_on k' (int_wrap (d + 1))
  end.

(** ** The record store *)

Inductive OpenMode : Type := ReadOnly | ReadWrite.

(** The part of [QDbfTable] the model calls.  [const] members are
    functions of the store; [seek], [next] and [updateRecordInTable] return
    their result and the store they leave.  [tbl_remaining] bounds the
    number of records a traversal can still visit: the file is finite and
    [next] only moves forward.  [size] answers an [int], and a traversal
    that [seek] has positioned visits no more records than the table
    has. *)
Class QDbfTable (T : Type) : Type := {
  tbl_open : OpenMode → T → bool * T;
  tbl_isOpen : T → bool;
  tbl_openMode : T → OpenMode;
  tbl_size : T → Z;
  tbl_record : T → QDbfRecord.t;
  tbl_at : T → Z;
  tbl_seek : Z → T → bool * T;
  tbl_next : T → bool * T;
  tbl_updateRecordInTable : QDbfRecord.t → T → bool * T;
  tbl_remaining : T → nat;
  tbl_next_remaining :
    ∀ t t', tbl_next t = (true, t') → (tbl_remaining t' < tbl_remaining t)%nat;
  tbl_size_int : ∀ t, tbl_size t ≤ INT_MAX;
  tbl_seek_remaining :
    ∀ i t t', tbl_seek i t = (true, t') → Z.of_nat (tbl_remaining t') ≤ tbl_size t'
}.

(** The signals and the [beginInsertRows]/[endInsertRows] calls the model
    makes on its public object [q], in the order it makes them. *)
Inductive Signal : Type :=
| dataChanged (topLeft bottomRight : QModelIndex.t)
| headerDataChanged (orientation : Qt.Orientation) (first last : Z)
| beginInsertRows (parent : QModelIndex.t) (first last : Z)
| endInsertRows.

Definition DBF_PREFETCH : Z := 255.


(** [QVector::at] and [QVector::operator[]]: defined inside the vector only. *)
Definition vector_at {A} (v : list A) (i : Z) : option A :=
  if 0 <=? i then v !! Z.to_nat i else None.

(** [QVector::value(i)]: the default-constructed element outside the vector. *)
Definition vector_value {A} (dflt : A) (v : list A) (i : Z) : A :=
  default dflt (vector_at v i).

(** [QHash::value(key)]: the default-constructed value for a missing key. *)
Definition hash_value (h : gmap Z QVariant.t) (key : Z) : QVariant.t :=
  default QVariant.Invalid (h !! key).

Section Model.

Context {T : Type} `{!QDbfTable T}.

(** The data members of [QDbfTableModelPrivate]. *)
Record State : Type := mkState {
  m_dbfTable : T;
  m_record : QDbfRecord.t;
  m_records : list QDbfRecord.t;
  m_headers : list (gmap Z QVariant.t);
  m_deletedRecordsCount : Z;
  m_lastRecordIndex : Z
}.

Definition set_dbfTable (t : T) (s : State) : State :=
  mkState t (m_record s) (m_records s) (m_headers s)
          (m_deletedRecordsCount s) (m_lastRecordIndex s).
Definition set_records (rs : list QDbfRecord.t) (s : State) : State :=
  mkState (m_dbfTable s) (m_record s) rs (m_headers s)
          (m_deletedRecordsCount s) (m_lastRecordIndex s).
Definition set_headers (hs : list (gmap Z QVariant.t)) (s : State) : State :=
  mkState (m_dbfTable s) (m_record s) (m_records s) hs
          (m_deletedRecordsCount s) (m_lastRecordIndex s).
Definition set_deletedRecordsCount (d : Z) (s : State) : State :=
  mkState (m_dbfTable s) (m_record s) (m_records s) (m_headers s)
          d (m_lastRecordIndex s).
Definition set_lastRecordIndex (l : Z) (s : State) : State :=
  mkState (m_dbfTable s) (m_record s) (m_records s) (m_headers s)
          (m_deletedRecordsCount s) l.

(** *** The monad of the mutating member functions *)

Definition M (A : Type) : Type := State → option (A * State * list Signal).

#[global] Instance M_ret : MRet M := λ A a s, Some (a, s, []).

#[global] Instance M_bind : MBind M := λ A B k m s,
  match m s with
  | Some (a, s1, e1) =>
      match k a s1 with
      | Some (b, s2, e2) => Some (b, s2, e1 ++ e2)
      | None => None
      end
  | None => None
  end.

Definition gets {A} (f : State → A) : M A := λ s, Some (f s, s, []).
Definition modify (f : State → State) : M unit := λ s, Some ((), f s, []).
Definition emit (sg : Signal) : M unit := λ s, Some ((), s, [sg]).

(** [m_records.at(i)] *)
Definition records_at (i : Z) : M QDbfRecord.t := λ s,
  match vector_at (m_records s) i with
  | Some r => Some (r, s, [])
  | None => None
  end.

(** [m_records[i].f(...)] *)
Definition records_update (i : Z) (f : QDbfRecord.t → QDbfRecord.t) : M unit :=
  λ s,
  match vector_at (m_records s) i with
  | Some r => Some ((), set_records (<[Z.to_nat i := f r]> (m_records s)) s, [])
  | None => None
  end.

(** [m_dbfTable->f(...)] for a member that changes the store. *)
Definition table_call {A} (f : T → A * T) : M A := λ s,
  let '(a, t') := f (m_dbfTable s) in Some (a, set_dbfTable t' s, []).

(** *** Member functions *)

Definition rowCount (s : State) (index : QModelIndex.t) : Z :=
  Z.of_nat (length (m_records s)).

Definition columnCount (s : State) (index : QModelIndex.t) : Z :=
  QDbfRecord.count (m_record s).

Definition flags (s : State) (index : QModelIndex.t) : Z :=
  if negb (QModelIndex.isValid index) then Qt.ItemIsEnabled
  else match tbl_openMode (m_dbfTable s) with
       | ReadWrite =>
           Z.lor (Z.lor Qt.ItemIsSelectable Qt.ItemIsEnabled) Qt.ItemIsEditable
       | _ => Z.lor Qt.ItemIsSelectable Qt.ItemIsEnabled
       end.

Definition setData (index : QModelIndex.t) (value : QVariant.t) (role : Z)
  : M bool :=
  open ← gets (λ s, tbl_isOpen (m_dbfTable s));
  if negb open then mret false
  else if QModelIndex.isValid index && (role =? Qt.EditRole) then
    old ← records_at (QModelIndex.row index);
    let oldValue := QDbfRecord.value old (QModelIndex.column index) in
    records_update (QModelIndex.row index)
                   (QDbfRecord.setValue (QModelIndex.column index) value);;
    r ← records_at (QModelIndex.row index);
    ok ← table_call (tbl_updateRecordInTable r);
    if negb ok then
      records_update (QModelIndex.row index)
                     (QDbfRecord.setValue (QModelIndex.column index) oldValue);;
      mret false
    else
      emit (dataChanged index index);;
      mret true
  else mret false.

Definition data (s : State) (index : QModelIndex.t) (role : Z) : QVariant.t :=
  if negb (QModelIndex.isValid index) then QVariant.Invalid
  else if (rowCount s QModelIndex.root <=? QModelIndex.row index)
          || (columnCount s QModelIndex.root <=? QModelIndex.column index)
  then QVariant.Invalid
  else if negb (Z.land role (Z.lnot (Z.lor Qt.DisplayRole Qt.EditRole)) =? 0)
  then QVariant.Invalid
  else
    (* [m_records.at(row)]: the row was checked above *)
    match vector_at (m_records s) (QModelIndex.row index) with
    | Some r =>
        let value := QDbfRecord.value r (QModelIndex.column index) in
        match value with
        | QVariant.String str =>
            if role =? Qt.EditRole
            then QVariant.String (QString.trimmed str)
            else value
        | _ => value
        end
    | None => QVariant.Invalid
    end.

Definition setHeaderData (section : Z) (orientation : Qt.Orientation)
           (value : QVariant.t) (role : Z) : M bool :=
  cols ← gets (λ s, columnCount s QModelIndex.root);
  if bool_decide (orientation ≠ Qt.Horizontal) || (section <? 0)
     || (cols <=? section)
  then mret false
  else
    size ← gets (λ s, Z.of_nat (length (m_headers s)));
    (if size <=? section then
       modify (λ s, set_headers
                      (resize (Z.to_nat (Z.max (section + 1) 16)) ∅ (m_headers s)) s)
     else mret ());;
    (* [m_headers[section][role] = value] *)
    modify (λ s, set_headers
                   (alter (<[role := value]>) (Z.to_nat section) (m_headers s)) s);;
    emit (headerDataChanged orientation section section);;
    mret true.

(** [m_headers.value(section).value(role)] *)
Definition overlay (s : State) (section role : Z) : QVariant.t :=
  hash_value (vector_value ∅ (m_headers s) section) role.

Definition headerData (s : State) (section : Z) (orientation : Qt.Orientation)
           (role : Z) : QVariant.t :=
  let fallback :=
    if role =? Qt.DisplayRole then QVariant.Int (int_wrap (section + 1))
    else QVariant.Invalid in
  match orientation with
  | Qt.Horizontal =>
      let value := overlay s section role in
      let value :=
        if (role =? Qt.DisplayRole) && negb (QVariant.isValid value)
        then overlay s section Qt.EditRole
        else value in
      if QVariant.isValid value then value
      else if (role =? Qt.DisplayRole) && (section <? QDbfRecord.count (m_record s))
      then QVariant.String (QDbfRecord.fieldName (m_record s) section)
      else fallback
  | Qt.Vertical => fallback
  end.

Definition canFetchMore (s : State) (index : QModelIndex.t) : bool :=
  negb (QModelIndex.isValid index)
  && tbl_isOpen (m_dbfTable s)
  && (Z.of_nat (length (m_records s)) + m_deletedRecordsCount s
      <? tbl_size (m_dbfTable s)).

(** The [while (m_dbfTable->next())] loop of [fetchMore];
    [fetched] is [fetchedRecordsCount].  The loop neither signals nor
    asserts.  [fuel] bounds the iterations; [fetchMore] passes more than
    the store can use ([fetch_loop_fuel] below). *)
Fixpoint fetch_loop (fuel : nat) (fetchSize fetched : Z) (s : State) : State :=
  match fuel with
  | O => s
  | S fuel' =>
      let '(more, t') := tbl_next (m_dbfTable s) in
      let s := set_dbfTable t' s in
      if negb more then s
      else
        let record := tbl_record t' in
        if QDbfRecord.isDeleted record then
          fetch_loop fuel' fetchSize fetched
            (set_deletedRecordsCount (int_wrap (m_deletedRecordsCount s + 1)) s)
        else
          let s := set_records (m_records s ++ [record]) s in
          let s := set_lastRecordIndex (tbl_at t') s in
          let fetched := fetched + 1 in
          if fetchSize <=? fetched then s
          else fetch_loop fuel' fetchSize fetched s
  end.

Definition fetchMore (index : QModelIndex.t) : M unit :=
  if QModelIndex.isValid index then mret ()
  else
    last ← gets m_lastRecordIndex;
    found ← table_call (tbl_seek last);
    if negb found then mret ()
    else
      size ← gets (λ s, tbl_size (m_dbfTable s));
      count ← gets (λ s, Z.of_nat (length (m_records s)));
      deleted ← gets m_deletedRecordsCount;
      let fetchSize := Z.min (size - count - deleted) DBF_PREFETCH in
      emit (beginInsertRows index (count + 1) (count + fetchSize));;
      modify (λ s, fetch_loop (S (tbl_remaining (m_dbfTable s))) fetchSize 0 s);;
      emit endInsertRows.

(** The two constructors: [QDbfTableModelPrivate] opens the table and
    reads the schema record, [QDbfTableModel] then fetches the first
    batch.  [file] is the table of [dbfFileName] before it is opened. *)
Definition QDbfTableModelPrivate_new (file : T) (readOnly : bool) : State :=
  let openMode := if readOnly then ReadOnly else ReadWrite in
  let t := (tbl_open openMode file).2 in
  mkState t (tbl_record t) [] [] 0 (-1).

Definition QDbfTableModel_new (file : T) (readOnly : bool)
  : option (unit * State * list Signal) :=
  let d := QDbfTableModelPrivate_new file readOnly in
  if canFetchMore d QModelIndex.root then fetchMore QModelIndex.root d
  else Some ((), d, []).

(** [QAbstractTableModel::index(row, column)], which [QDbfTableModel]
    inherits from Qt unchanged: the index of the cell for coordinates
    inside the table ([hasIndex]), the invalid index for any other.  These
    are the indexes the model hands out to its views and delegates. *)
Definition QAbstractTableModel_index (s : State) (row column : Z)
  : QModelIndex.t :=
  if (0 <=? row) && (0 <=? column)
     && (row <? rowCount s QModelIndex.root)
     && (column <? columnCount s QModelIndex.root)
  then QModelIndex.mk row column true
  else QModelIndex.root.

End Model.

Arguments State T : clear implicits.
Arguments M T : clear implicits.

(** ** A sequential store *)

(** Modelled from the spec: the record store of section 6 (qdbftable.h is
    not part of the translated file).  A finite file of records with a
    cursor: [size] is the record count of the file as an [int] can hold
    it, [open] positions the cursor before the first record, [seek]
    accepts the positions of the file and the position before the first
    record ("false if invalid/unseekable"), [next] moves one record forward
    ("false at end of traversal"), [record] is the record under the cursor,
    stamped with its position, or the schema record when the cursor is on
    no record, and [updateRecordInTable] writes the record at the position
    it carries, which a store that is closed, read-only or on a faulty
    device refuses. *)
Module SeqStore.

Record t : Type := mk {
  present : bool;
  faulty : bool;
  isOpen : bool;
  openMode : OpenMode;
  schema : QDbfRecord.t;
  records : list QDbfRecord.t;
  cursor : Z
}.

Definition set_cursor (c : Z) (s : t) : t :=
  mk (present s) (faulty s) (isOpen s) (openMode s) (schema s) (records s) c.

Definition set_records (rs : list QDbfRecord.t) (s : t) : t :=
  mk (present s) (faulty s) (isOpen s) (openMode s) (schema s) rs (cursor s).

Definition size (s : t) : Z := Z.min (Z.of_nat (length (records s))) INT_MAX.

Definition open (m : OpenMode) (s : t) : bool * t :=
  if present s
  then (true, mk true (faulty s) true m (schema s) (records s) (-1))
  else (false, s).

Definition seek (i : Z) (s : t) : bool * t :=
  if isOpen s && (-1 <=? i) && (i <? size s)
  then (true, set_cursor i s)
  else (false, s).

Definition next (s : t) : bool * t :=
  if isOpen s && (cursor s + 1 <? size s)
  then (true, set_cursor (cursor s + 1) s)
  else (false, s).

Definition record (s : t) : QDbfRecord.t :=
  match vector_at (records s) (cursor s) with
  | Some r => QDbfRecord.setRecordIndex (cursor s) r
  | None => schema s
  end.

Definition at_ (s : t) : Z := cursor s.

Definition writable (s : t) : bool :=
  isOpen s && negb (faulty s)
  && match openMode s with ReadWrite => true | ReadOnly => false end.

Definition updateRecordInTable (r : QDbfRecord.t) (s : t) : bool * t :=
  if writable s && (0 <=? QDbfRecord.recordIndex r)
     && (QDbfRecord.recordIndex r <? size s)
  then (true, set_records (<[Z.to_nat (QDbfRecord.recordIndex r) := r]> (records s)) s)
  else (false, s).

Definition remaining (s : t) : nat := Z.to_nat (size s - 1 - cursor s).

Lemma next_remaining s s' :
  next s = (true, s') → (remaining s' < remaining s)%nat.
Proof.
  unfold next, remaining. case_match; [|done].
  intros [= <-]. cbn. unfold size in *. cbn. lia.
Qed.

Lemma size_int s : size s ≤ INT_MAX.
Proof. unfold size. lia. Qed.

Lemma seek_remaining i s s' :
  seek i s = (true, s') → Z.of_nat (remaining s') ≤ size s'.
Proof.
  unfold seek, remaining. case_match; [|done].
  intros [= <-]. unfold size in *. cbn. unfold INT_MAX. lia.
Qed.

End SeqStore.

#[global] Instance SeqStore_table : QDbfTable SeqStore.t := {|
  tbl_open := SeqStore.open;
  tbl_isOpen := SeqStore.isOpen;
  tbl_openMode := SeqStore.openMode;
  tbl_size := SeqStore.size;
  tbl_record := SeqStore.record;
  tbl_at := SeqStore.at_;
  tbl_seek := SeqStore.seek;
  tbl_next := SeqStore.next;
  tbl_updateRecordInTable := SeqStore.updateRecordInTable;
  tbl_remaining := SeqStore.remaining;
  tbl_next_remaining := SeqStore.next_remaining;
  tbl_size_int := SeqStore.size_int;
  tbl_seek_remaining := SeqStore.seek_remaining
|}.

(** *** Sample tables *)

Module Sample.

Definition str (s : string) : QVariant.t :=
  QVariant.String (QString.fromLatin1 s).

Definition fld (n : string) (v : QVariant.t) : QDbfRecord.field :=
  QDbfRecord.mkField (QString.fromLatin1 n) v.

(** A record of the two-column table (NAME, AGE). *)
Definition person (deleted : bool) (n : string) (age : Z) : QDbfRecord.t :=
  QDbfRecord.mk (-1) deleted [fld "NAME" (str n); fld "AGE" (QVariant.Int age)].

Definition schema : QDbfRecord.t :=
  QDbfRecord.mk (-1) false
    [fld "NAME" QVariant.Invalid; fld "AGE" QVariant.Invalid].

Definition file (faulty : bool) (rs : list QDbfRecord.t) : SeqStore.t :=
  SeqStore.mk true faulty false ReadOnly schema rs (-1).

(** One live record followed by one deleted record. *)
Definition live_deleted : SeqStore.t :=
  file false [person false "  Ann " 31; person true "Bob" 40].

(** A file on a device that refuses writes. *)
Definition on_faulty_device : SeqStore.t :=
  file true [person false "  Ann " 31; person true "Bob" 40].

(** A file that cannot be opened. *)
Definition missing : SeqStore.t :=
  SeqStore.mk false false false ReadOnly QDbfRecord.empty [] (-1).

(** The states the constructor leaves. *)
Definition state_of (file : SeqStore.t) (readOnly : bool) : State SeqStore.t :=
  match QDbfTableModel_new file readOnly with
  | Some (_, s, _) => s
  | None => QDbfTableModelPrivate_new file readOnly
  end.

(** The scenario of the specification: 300 records, 10 of them deleted,
    interspersed. *)
Definition three_hundred : SeqStore.t :=
  file false
       ((λ i : nat, person (bool_decide (i `mod` 30 = 7)%nat) "Row" (Z.of_nat i))
          <$> seq 0 300).

(** The caches the constructor builds over these files, and the cache
    before its first fetch. *)
Definition opened : State SeqStore.t := state_of live_deleted false.
Definition faulty : State SeqStore.t := state_of on_faulty_device false.
Definition big : State SeqStore.t := state_of three_hundred false.
Definition fresh : State SeqStore.t :=
  QDbfTableModelPrivate_new live_deleted false.

(** The cache over the same file opened read-only. *)
Definition read_only : State SeqStore.t := state_of live_deleted true.

(** The cells of the first row. *)
Definition name0 : QModelIndex.t := QModelIndex.mk 0 0 true.
Definition age0 : QModelIndex.t := QModelIndex.mk 0 1 true.

End Sample.

(** ** The public interface as a machine *)

(** A call of a public member function of [QDbfTableModel] (each forwards
    to the private class), its answer, and the execution of a sequence of
    calls. *)
Inductive Call : Type :=
| CallRowCount (index : QModelIndex.t)
| CallColumnCount (index : QModelIndex.t)
| CallFlags (index : QModelIndex.t)
| CallData (index : QModelIndex.t) (role : Z)
| CallHeaderData (section : Z) (orientation : Qt.Orientation) (role : Z)
| CallCanFetchMore (index : QModelIndex.t)
| CallSetData (index : QModelIndex.t) (value : QVariant.t) (role : Z)
| CallSetHeaderData (section : Z) (orientation : Qt.Orientation)
                    (value : QVariant.t) (role : Z)
| CallFetchMore (index : QModelIndex.t).

Inductive Answer : Type :=
| AInt (n : Z)
| AVariant (v : QVariant.t)
| ABool (b : bool)
| AVoid.

(** The member functions declared [const]. *)
Definition isConst (c : Call) : bool :=
  match c with
  | CallSetData _ _ _ | CallSetHeaderData _ _ _ _ | CallFetchMore _ => false
  | _ => true
  end.

Section Machine.

Context {T : Type} `{!QDbfTable T}.

Definition call (c : Call) : M T Answer :=
  match c with
  | CallRowCount i => gets (λ s, AInt (rowCount s i))
  | CallColumnCount i => gets (λ s, AInt (columnCount s i))
  | CallFlags i => gets (λ s, AInt (flags s i))
  | CallData i role => gets (λ s, AVariant (data s i role))
  | CallHeaderData n o role => gets (λ s, AVariant (headerData s n o role))
  | CallCanFetchMore i => gets (λ s, ABool (canFetchMore s i))
  | CallSetData i v role => b ← setData i v role; mret (ABool b)
  | CallSetHeaderData n o v role => b ← setHeaderData n o v role; mret (ABool b)
  | CallFetchMore i => fetchMore i;; mret AVoid
  end.

Fixpoint run (cs : list Call) (s : State T) : option (State T) :=
  match cs with
  | [] => Some s
  | c :: cs' =>
      match call c s with
      | Some (_, s', _) => run cs' s'
      | None => None
      end
  end.

(** The protocol of a Qt view, which the constructor follows too:
    [fetchMore] is called only after [canFetchMore] has answered [true]. *)
Definition asked (s : State T) (c : Call) : bool :=
  match c with
  | CallFetchMore i => canFetchMore s i
  | _ => true
  end.

Fixpoint polite (cs : list Call) (s : State T) : bool :=
  match cs with
  | [] => true
  | c :: cs' =>
      asked s c
      && match call c s with
         | Some (_, s', _) => polite cs' s'
         | None => true
         end
  end.

(** A view that fills itself: it asks [canFetchMore] and calls [fetchMore]
    while the answer is [true], at most [rounds] times. *)
Fixpoint fetch_rounds (rounds : nat) (s : State T) : option (State T) :=
  match rounds with
  | O => Some s
  | S rounds' =>
      if canFetchMore s QModelIndex.root then
        match fetchMore QModelIndex.root s with
        | Some (_, s', _) => fetch_rounds rounds' s'
        | None => None
        end
      else Some s
  end.

(** What the cache keeps of its state besides the store. *)
Definition cache (s : State T)
  : list QDbfRecord.t * list (gmap Z QVariant.t) * Z * Z :=
  (m_records s, m_headers s, m_deletedRecordsCount s, m_lastRecordIndex s).

End Machine.

(** The state a sequence of calls leaves, when every call returns. *)
Definition after {T} `{!QDbfTable T} (cs : list Call) (s : State T) : State T :=
  default s (run cs s).

Module Scenario.

(** Column 1 labelled "Years" under the edit role. *)
Definition labelled : State SeqStore.t :=
  after [CallSetHeaderData 1 Qt.Horizontal (Sample.str "Years") Qt.EditRole]
        Sample.opened.

(** A consumer that fetches while there is more, writes a cell, labels a
    column and asks again. *)
Definition calls : list Call :=
  [CallFetchMore QModelIndex.root;
   CallSetData (QModelIndex.mk 3 1 true) (QVariant.Int 5) Qt.EditRole;
   CallSetHeaderData 1 Qt.Horizontal (Sample.str "Years") Qt.EditRole;
   CallCanFetchMore QModelIndex.root].

Definition served : State SeqStore.t := after calls Sample.big.

(** A consumer that fetches without asking, when nothing is left. *)
Definition refetched : State SeqStore.t :=
  after [CallFetchMore QModelIndex.root] Sample.opened.

End Scenario.

(** ** Counting the records of a sequential store *)

(** The live and the deleted records among the first [k] of the file. *)
Definition live_upto (k : Z) (rs : list QDbfRecord.t) : Z :=
  Z.of_nat (length (filter (λ r, QDbfRecord.isDeleted r = false)
                           (take (Z.to_nat k) rs))).

Definition deleted_upto (k : Z) (rs : list QDbfRecord.t) : Z :=
  Z.of_nat (length (filter (λ r, QDbfRecord.isDeleted r = true)
                           (take (Z.to_nat k) rs))).

(** A row of the cache is a live record, and the record of the file at
    the position it carries, if there is one, is live too. *)
Definition row_ok (rs : list QDbfRecord.t) (r : QDbfRecord.t) : Prop :=
  QDbfRecord.isDeleted r = false
  ∧ ∀ r', vector_at rs (QDbfRecord.recordIndex r) = Some r' →
          QDbfRecord.isDeleted r' = false.

(** What a cache over a sequential store maintains: the bookmark is a
    position of the file (or -1); the rows are live records that sit on
    live positions, as many as the file has up to the bookmark; and the
    deleted records are counted up to the bookmark, or for the whole file
    once the traversal met its end; the counter is an [int].  With
    [exact = false] nothing more is said of the final count: fetches nobody
    asked for count the deleted records at the end of the file again. *)
Definition consistent (exact : bool) (s : State SeqStore.t) : Prop :=
  let rs := SeqStore.records (m_dbfTable s) in
  let n := SeqStore.size (m_dbfTable s) in
  let l := m_lastRecordIndex s in
  let d := m_deletedRecordsCount s in
  -1 ≤ l < n
  ∧ Z.of_nat (length (m_records s)) = live_upto (l + 1) rs
  ∧ Forall (row_ok rs) (m_records s)
  ∧ (d = deleted_upto (l + 1) rs
     ∨ (live_upto (l + 1) rs = live_upto n rs
        ∧ if exact then d = deleted_upto n rs else True))
  ∧ INT_MIN ≤ d ≤ INT_MAX.

(** The records of a file as [record] delivers them, each stamped with its
    position, the first of them with [o]; and the live records among the
    first [k] of the file, as delivered. *)
Fixpoint stamp_from (o : Z) (rs : list QDbfRecord.t) : list QDbfRecord.t :=
  match rs with
  | [] => []
  | r :: rs' => QDbfRecord.setRecordIndex o r :: stamp_from (o + 1) rs'
  end.

Definition live_rows (k : Z) (rs : list QDbfRecord.t) : list QDbfRecord.t :=
  filter (λ r, QDbfRecord.isDeleted r = false)
         (stamp_from 0 (take (Z.to_nat k) rs)).

(** The rows of the cache are the live records of the file up to the
    bookmark, in the order of the file, as the store delivers them. *)
Definition coherent (s : State SeqStore.t) : Prop :=
  m_records s
  = live_rows (m_lastRecordIndex s + 1) (SeqStore.records (m_dbfTable s)).

Module Written.

(** The first row of the sample table as the store delivers it, and the
    cache after its age was set to 5. *)
Definition row0 : QDbfRecord.t :=
  QDbfRecord.setRecordIndex 0 (Sample.person false "  Ann " 31).

Definition state : State SeqStore.t :=
  after [CallSetData Sample.age0 (QVariant.Int 5) Qt.EditRole] Sample.opened.

End Written.

(** The cell at (row, column) of the row cache, when the row is cached. *)
Definition cell {T} (s : State T) (row column : Z) : option QVariant.t :=
  (λ r, QDbfRecord.value r column) <$> vector_at (m_records s) row.

(** * Properties *)

(** ** Trimming *)

Section Trimming.

Lemma skipSpaces_split (s : QString.t) :
  ∃ pre, s = pre ++ QString.skipSpaces s
         ∧ Forall (λ c, QString.isSpace c = true) pre.
Proof.
  induction s as [|c s [pre [IH1 IH2]]]; simpl.
  - exists []. by split.
  - destruct (QString.isSpace c) eqn:E.
    + exists (c :: pre). split; [simpl; by f_equal | by constructor].
    + exists []. by split.
Qed.

Lemma skipSpaces_head (s : QString.t) c rest :
  QString.skipSpaces s = c :: rest → QString.isSpace c = false.
Proof.
  induction s as [|c' s IH]; simpl; [done|].
  destruct (QString.isSpace c') eqn:E; [done|]. by intros [= -> _].
Qed.

(** [trimmed] cuts a run of whitespace off each end, and what is left
    neither starts nor ends with whitespace. *)
Lemma trimmed_spec (s : QString.t) :
  (∃ pre post,
      s = pre ++ QString.trimmed s ++ post
      ∧ Forall (λ c, QString.isSpace c = true) pre
      ∧ Forall (λ c, QString.isSpace c = true) post)
  ∧ (∀ c, head (QString.trimmed s) = Some c → QString.isSpace c = false)
  ∧ (∀ c, last (QString.trimmed s) = Some c → QString.isSpace c = false).
Proof.
  unfold QString.trimmed.
  destruct (skipSpaces_split s) as [pre [Hs Hpre]].
  destruct (skipSpaces_split (reverse (QString.skipSpaces s)))
    as [post [Hr Hpost]].
  set (u := QString.skipSpaces s) in *.
  set (v := QString.skipSpaces (reverse u)) in *.
  split; [|split].
  - exists pre, (reverse post). split; [|split].
    + rewrite <- reverse_app, <- Hr, reverse_involutive. exact Hs.
    + exact Hpre.
    + by apply Forall_reverse.
  - intros c Hc. rewrite head_reverse in Hc.
    assert (Hu : head u = Some c).
    { by rewrite <- last_reverse, Hr, last_app, Hc. }
    subst u. destruct (QString.skipSpaces s) as [|c0 rest] eqn:E; [done|].
    simpl in Hu. injection Hu as ->. by eapply skipSpaces_head.
  - intros c. rewrite last_reverse. subst v.
    destruct (QString.skipSpaces (reverse u)) as [|c0 rest] eqn:E; [done|].
    simpl. intros [= ->]. by eapply skipSpaces_head.
Qed.

End Trimming.

(** ** Machine integers *)

Lemma int_wrap_id (z : Z) : INT_MIN ≤ z ≤ INT_MAX → int_wrap z = z.
Proof.
  unfold int_wrap, INT_MIN, INT_MAX. intros H. rewrite Z.mod_small; lia.
Qed.

Lemma int_wrap_range (z : Z) : INT_MIN ≤ int_wrap z ≤ INT_MAX.
Proof.
  unfold int_wrap, INT_MIN, INT_MAX.
  pose proof (Z.mod_pos_bound (z - -2147483648) (2 ^ 32)). lia.
Qed.

(** Counting on in an [int]: only the total number of steps matters. *)
Lemma int_wrap_add (a b : Z) : int_wrap (int_wrap a + b) = int_wrap (a + b).
Proof.
  unfold int_wrap. f_equal.
  replace ((a - INT_MIN) `mod` 2 ^ 32 + INT_MIN + b - INT_MIN)
    with ((a - INT_MIN) `mod` 2 ^ 32 + b) by lia.
  replace (a + b - INT_MIN) with (a - INT_MIN + b) by lia.
  apply Zplus_mod_idemp_l.
Qed.

(** A counter that stays below [INT_MAX] counts exactly; in general it
    counts modulo the 32 bits. *)
Lemma count_on_exact (k : nat) (d : Z) :
  INT_MIN ≤ d → d + Z.of_nat k ≤ INT_MAX → count_on k d = d + Z.of_nat k.
Proof.
  revert d. induction k as [|k IH]; intros d Hlo Hhi; simpl; [lia|].
  rewrite int_wrap_id by lia. rewrite IH; lia.
Qed.

Lemma count_on_wrap (k : nat) (d : Z) :
  INT_MIN ≤ d ≤ INT_MAX → count_on k d = int_wrap (d + Z.of_nat k).
Proof.
  revert d. induction k as [|k IH]; intros d Hd; cbn [count_on].
  - rewrite Z.add_0_r. symmetry. by apply int_wrap_id.
  - rewrite IH by apply int_wrap_range. rewrite int_wrap_add. f_equal. lia.
Qed.

Lemma count_on_add (j k : nat) (d : Z) :
  count_on (j + k) d = count_on k (count_on j d).
Proof. revert d. induction j as [|j IH]; intros d; simpl; [done|]. apply IH. Qed.

Lemma count_on_range (k : nat) (d : Z) :
  INT_MIN ≤ d ≤ INT_MAX → INT_MIN ≤ count_on k d ≤ INT_MAX.
Proof. intros Hd. rewrite count_on_wrap by done. apply int_wrap_range. Qed.

(** ** Roles *)

Lemma testbit_2 (n : Z) : 0 ≤ n → Z.testbit 2 n = bool_decide (n = 1).
Proof.
  intros Hn. change 2 with (2 ^ 1). rewrite Z.pow2_bits_eqb by lia.
  case_bool_decide; [by apply Z.eqb_eq | apply Z.eqb_neq; lia].
Qed.

(** The mask of [data] lets exactly the display and the edit role through. *)
Lemma role_mask (role : Z) :
  Z.land role (Z.lnot (Z.lor Qt.DisplayRole Qt.EditRole)) = 0
  ↔ role = Qt.DisplayRole ∨ role = Qt.EditRole.
Proof.
  change (Z.lor Qt.DisplayRole Qt.EditRole) with 2.
  unfold Qt.DisplayRole, Qt.EditRole. split; [|by intros [-> | ->]].
  intros H.
  assert (Hb : ∀ n, 0 ≤ n → n ≠ 1 → Z.testbit role n = false).
  { intros n Hn Hn1.
    assert (Hz : Z.testbit (Z.land role (Z.lnot 2)) n = false)
      by (rewrite H; apply Z.bits_0).
    rewrite Z.land_spec, Z.lnot_spec, testbit_2 in Hz by lia.
    rewrite bool_decide_eq_false_2 in Hz by done.
    by rewrite andb_true_r in Hz. }
  destruct (Z.testbit role 1) eqn:E; [right | left];
    apply Z.bits_inj'; intros n Hn;
    rewrite ?Z.bits_0, ?testbit_2 by lia;
    destruct (decide (n = 1)) as [-> | Hn1];
    rewrite ?bool_decide_eq_true_2, ?bool_decide_eq_false_2 by done;
    auto.
Qed.

Lemma vector_at_Some {A} (v : list A) (i : Z) :
  0 ≤ i < Z.of_nat (length v) → ∃ x, vector_at v i = Some x.
Proof.
  intros Hi. unfold vector_at. rewrite (proj2 (Z.leb_le 0 i)) by lia.
  apply lookup_lt_is_Some. lia.
Qed.

Lemma vector_at_None {A} (v : list A) (i : Z) :
  Z.of_nat (length v) ≤ i → vector_at v i = None.
Proof.
  intros Hi. unfold vector_at. rewrite (proj2 (Z.leb_le 0 i)) by lia.
  apply lookup_ge_None. lia.
Qed.

Lemma vector_at_range {A} (v : list A) (i : Z) x :
  vector_at v i = Some x → 0 ≤ i < Z.of_nat (length v).
Proof.
  unfold vector_at. destruct (0 <=? i) eqn:E; [|done].
  intros Hx%lookup_lt_Some. apply Z.leb_le in E. lia.
Qed.

Section ReadSide.

Context {T : Type} `{!QDbfTable T}.

Implicit Types (s : State T) (index : QModelIndex.t).

(** [canFetchMore] at an invalid index, as a proposition. *)
Lemma canFetchMore_true s index :
  QModelIndex.isValid index = false →
  canFetchMore s index = true
  ↔ tbl_isOpen (m_dbfTable s) = true
    ∧ rowCount s index + m_deletedRecordsCount s < tbl_size (m_dbfTable s).
Proof.
  intros Hroot. unfold canFetchMore, rowCount. rewrite Hroot. simpl.
  rewrite andb_true_iff, Z.ltb_lt. done.
Qed.


(** At a valid index there is nothing to fetch: the table has no children. *)
Lemma canFetchMore_child s index :
  QModelIndex.isValid index = true → canFetchMore s index = false.
Proof. intros H. unfold canFetchMore. by rewrite H. Qed.

(** C9.  A cell inside the cache: a string read under the edit role comes
    trimmed, under the display role as stored, and a value of another type
    comes as stored under both roles.  A cell outside the cache, or any
    role other than these two, reads as the null variant. *)
Theorem data_cases s index role :
  (QModelIndex.isValid index = true →
   QModelIndex.row index < rowCount s QModelIndex.root →
   QModelIndex.column index < columnCount s QModelIndex.root →
   ∃ stored,
     cell s (QModelIndex.row index) (QModelIndex.column index) = Some stored
     ∧ data s index Qt.DisplayRole = stored
     ∧ (∀ str, stored = QVariant.String str →
               data s index Qt.EditRole = QVariant.String (QString.trimmed str))
     ∧ ((∀ str, stored ≠ QVariant.String str) →
        data s index Qt.EditRole = stored))
  ∧ (QModelIndex.isValid index = false
     ∨ rowCount s QModelIndex.root ≤ QModelIndex.row index
     ∨ columnCount s QModelIndex.root ≤ QModelIndex.column index
     ∨ (role ≠ Qt.DisplayRole ∧ role ≠ Qt.EditRole) →
     data s index role = QVariant.Invalid).
Proof.
  split.
  - intros Hv Hr Hc.
    assert (Hrow : 0 ≤ QModelIndex.row index).
    { unfold QModelIndex.isValid in Hv.
      apply andb_true_iff in Hv as [Hv _]. apply andb_true_iff in Hv as [Hv _].
      by apply Z.leb_le. }
    destruct (vector_at_Some (m_records s) (QModelIndex.row index)) as [r Hat];
      [unfold rowCount in Hr; lia|].
    exists (QDbfRecord.value r (QModelIndex.column index)).
    unfold cell, data. rewrite Hat, Hv. simpl.
    rewrite (proj2 (Z.leb_gt _ _) Hr), (proj2 (Z.leb_gt _ _) Hc). simpl.
    repeat split.
    + by destruct (QDbfRecord.value r (QModelIndex.column index)).
    + by intros str ->.
    + intros Hns.
      destruct (QDbfRecord.value r (QModelIndex.column index)) eqn:E; try done.
      by destruct (Hns s0).
  - intros H. unfold data.
    destruct (QModelIndex.isValid index); simpl; [|done].
    destruct (rowCount s QModelIndex.root <=? QModelIndex.row index) eqn:Er;
      simpl; [done|].
    destruct (columnCount s QModelIndex.root <=? QModelIndex.column index) eqn:Ec;
      simpl; [done|].
    apply Z.leb_gt in Er, Ec.
    destruct H as [H | [H | [H | [H1 H2]]]]; [done | lia | lia |].
    destruct (Z.land role (Z.lnot (Z.lor Qt.DisplayRole Qt.EditRole)) =? 0) eqn:Em;
      simpl; [|done].
    apply Z.eqb_eq, role_mask in Em. by destruct Em.
Qed.

(** C8.  The header of a column.  An overlay entry is a valid value
    stored for the role ([QHash::value] does not tell a missing key from a
    stored null variant).  In this order: the entry of the requested role;
    for the display role the entry of the edit role; for the display role
    the field name of the store, when the section is below the field
    count; for the display role the section plus one, for every section
    below [INT_MAX], the one [int] that has no successor; else no value.
    The row axis has the last two cases only. *)
Theorem headerData_resolution s section role :
  let display := headerData s section Qt.Horizontal Qt.DisplayRole in
  let shown := overlay s section Qt.DisplayRole in
  let edit := overlay s section Qt.EditRole in
  (QVariant.isValid (overlay s section role) = true →
   headerData s section Qt.Horizontal role = overlay s section role)
  ∧ (shown = QVariant.Invalid → QVariant.isValid edit = true → display = edit)
  ∧ (shown = QVariant.Invalid → edit = QVariant.Invalid →
     section < QDbfRecord.count (m_record s) →
     display = QVariant.String (QDbfRecord.fieldName (m_record s) section))
  ∧ (shown = QVariant.Invalid → edit = QVariant.Invalid →
     QDbfRecord.count (m_record s) ≤ section → section < INT_MAX →
     display = QVariant.Int (section + 1))
  ∧ (role ≠ Qt.DisplayRole → overlay s section role = QVariant.Invalid →
     headerData s section Qt.Horizontal role = QVariant.Invalid)
  ∧ (INT_MIN ≤ section < INT_MAX →
     headerData s section Qt.Vertical Qt.DisplayRole = QVariant.Int (section + 1))
  ∧ (role ≠ Qt.DisplayRole →
     headerData s section Qt.Vertical role = QVariant.Invalid).
Proof.
  cbv zeta. unfold headerData. split_and!.
  - intros Hv. rewrite Hv, andb_false_r. by rewrite Hv.
  - intros -> Hv. simpl. by rewrite Hv.
  - intros -> -> Hlt. simpl. by rewrite (proj2 (Z.ltb_lt _ _) Hlt).
  - intros -> -> Hge Hmax. simpl. rewrite (proj2 (Z.ltb_ge _ _) Hge).
    rewrite int_wrap_id; [done|].
    unfold QDbfRecord.count, INT_MIN, INT_MAX in *. lia.
  - intros Hr ->. rewrite (proj2 (Z.eqb_neq _ _) Hr). done.
  - intros Hi. simpl. rewrite int_wrap_id; [done|].
    unfold INT_MIN, INT_MAX in *. lia.
  - intros Hr. by rewrite (proj2 (Z.eqb_neq _ _) Hr).
Qed.

(** An overlay that holds nothing for a column answers with the null
    variant, whatever the role: reading goes through [QVector::value] and
    [QHash::value]. *)
Lemma overlay_missing s section role :
  vector_value ∅ (m_headers s) section !! role = None →
  overlay s section role = QVariant.Invalid.
Proof. unfold overlay, hash_value. by intros ->. Qed.

Lemma overlay_beyond s section role :
  Z.of_nat (length (m_headers s)) ≤ section →
  overlay s section role = QVariant.Invalid.
Proof.
  intros H. apply overlay_missing. unfold vector_value.
  by rewrite vector_at_None.
Qed.

(** C10.  A call of a [const] member function answers, leaves the whole
    state as it was (the row cache, the counter of deleted records, the
    bookmark, the overlay and the store) and emits no signal; and reading
    the header of a section beyond the overlay leaves the overlay at its
    length. *)
Theorem const_call_frame (c : Call) s :
  (isConst c = true → ∃ a, call c s = Some (a, s, []))
  ∧ (∀ section orientation role,
       Z.of_nat (length (m_headers s)) ≤ section →
       ∃ a s',
         call (CallHeaderData section orientation role) s = Some (a, s', [])
         ∧ length (m_headers s') = length (m_headers s)).
Proof.
  split.
  - destruct c; simpl; intros Hc; try discriminate Hc; unfold gets; eauto.
  - intros section orientation role _. simpl. unfold gets. eauto.
Qed.

End ReadSide.

(** ** Records *)

Lemma fieldAt_setValue (r : QDbfRecord.t) (i : Z) (v : QVariant.t) f :
  QDbfRecord.fieldAt r i = Some f →
  QDbfRecord.fieldAt (QDbfRecord.setValue i v r) i
  = Some (QDbfRecord.mkField (QDbfRecord.name f) v).
Proof.
  intros Hf. unfold QDbfRecord.setValue. rewrite Hf.
  unfold QDbfRecord.fieldAt in *. simpl.
  destruct (0 <=? i); [|done].
  apply list_lookup_insert_eq. by eapply lookup_lt_Some.
Qed.

(** Writing a value and then the value that was there gives the record back. *)
Lemma setValue_undo (r : QDbfRecord.t) (i : Z) (v : QVariant.t) :
  QDbfRecord.setValue i (QDbfRecord.value r i) (QDbfRecord.setValue i v r) = r.
Proof.
  unfold QDbfRecord.value.
  destruct (QDbfRecord.fieldAt r i) as [f|] eqn:Hf.
  - unfold QDbfRecord.setValue at 1.
    rewrite (fieldAt_setValue _ _ _ _ Hf). simpl.
    unfold QDbfRecord.setValue. rewrite Hf. simpl.
    rewrite list_insert_insert_eq.
    unfold QDbfRecord.fieldAt in Hf. destruct (0 <=? i); [|done].
    rewrite list_insert_id by (by destruct f).
    by destruct r.
  - unfold QDbfRecord.setValue. by rewrite !Hf.
Qed.

Lemma value_setValue (r : QDbfRecord.t) (i : Z) (v : QVariant.t) :
  0 ≤ i < QDbfRecord.count r →
  QDbfRecord.value (QDbfRecord.setValue i v r) i = v.
Proof.
  intros Hi.
  destruct (vector_at_Some (QDbfRecord.fields r) i Hi) as [f Hf].
  unfold QDbfRecord.value.
  by rewrite (fieldAt_setValue r i v f Hf).
Qed.

Lemma setValue_keeps (r : QDbfRecord.t) (i : Z) (v : QVariant.t) :
  QDbfRecord.isDeleted (QDbfRecord.setValue i v r) = QDbfRecord.isDeleted r
  ∧ QDbfRecord.recordIndex (QDbfRecord.setValue i v r) = QDbfRecord.recordIndex r.
Proof. unfold QDbfRecord.setValue. by destruct (QDbfRecord.fieldAt r i). Qed.

Lemma vector_at_insert {A} (v : list A) (i : Z) (x y : A) :
  vector_at v i = Some x → vector_at (<[Z.to_nat i := y]> v) i = Some y.
Proof.
  unfold vector_at. destruct (0 <=? i); [|done].
  intros H. apply list_lookup_insert_eq. by eapply lookup_lt_Some.
Qed.

(** ** Writing a cell *)

Section WriteSide.

Context {T : Type} `{!QDbfTable T}.

Implicit Types (s : State T) (index : QModelIndex.t).

(** [setData], with the monad unfolded. *)
Lemma setData_eq index value role s :
  setData index value role s =
  if negb (tbl_isOpen (m_dbfTable s)) then Some (false, s, [])
  else if QModelIndex.isValid index && (role =? Qt.EditRole) then
    match vector_at (m_records s) (QModelIndex.row index) with
    | None => None
    | Some old =>
        let i := Z.to_nat (QModelIndex.row index) in
        let r := QDbfRecord.setValue (QModelIndex.column index) value old in
        let upd := tbl_updateRecordInTable r (m_dbfTable s) in
        if upd.1
        then Some (true,
                   set_dbfTable upd.2 (set_records (<[i := r]> (m_records s)) s),
                   [dataChanged index index])
        else Some (false, set_dbfTable upd.2 s, [])
    end
  else Some (false, s, []).
Proof.
  unfold setData, mbind, mret, M_bind, M_ret, gets. simpl.
  destruct (tbl_isOpen (m_dbfTable s)); simpl; [|done].
  destruct (QModelIndex.isValid index && (role =? Qt.EditRole)); [|done].
  unfold records_at, records_update, table_call, emit. simpl.
  destruct (vector_at (m_records s) (QModelIndex.row index)) as [old|] eqn:Hat;
    [|done].
  simpl. rewrite Hat. simpl. rewrite (vector_at_insert _ _ old _ Hat). simpl.
  destruct (tbl_updateRecordInTable _ (m_dbfTable s)) as [[] t'] eqn:Hu; simpl.
  - done.
  - rewrite (vector_at_insert _ _ old _ Hat). simpl.
    rewrite list_insert_insert_eq, setValue_undo.
    unfold vector_at in Hat. destruct (0 <=? QModelIndex.row index); [|done].
    rewrite list_insert_id by done. by destruct s.
Qed.

(** C1.  A write under the edit role to a cell of the cache.  On an open
    store the row with the cell overwritten is handed to the store and the
    answer of the call is the answer of the store; a closed store is not
    asked and the answer is [false].  When the answer is [false], the cell
    holds the value captured before the write, the whole cache is as
    before the call and no signal is emitted.  When the answer is [true],
    the row holds the overwritten record and exactly one signal is emitted,
    [dataChanged] for that cell. *)
Theorem setData_transaction s index value :
  QModelIndex.isValid index = true →
  QModelIndex.row index < rowCount s QModelIndex.root →
  QModelIndex.column index < columnCount s QModelIndex.root →
  ∃ old answer s',
    let row := QModelIndex.row index in
    let column := QModelIndex.column index in
    let r := QDbfRecord.setValue column value old in
    vector_at (m_records s) row = Some old
    ∧ answer = tbl_isOpen (m_dbfTable s)
               && (tbl_updateRecordInTable r (m_dbfTable s)).1
    ∧ setData index value Qt.EditRole s
      = Some (answer, s', if answer then [dataChanged index index] else [])
    ∧ (answer = false →
       cell s' row column = Some (QDbfRecord.value old column)
       ∧ cache s' = cache s)
    ∧ (answer = true →
       vector_at (m_records s') row = Some r
       ∧ m_records s' = <[Z.to_nat row := r]> (m_records s)
       ∧ m_headers s' = m_headers s
       ∧ m_deletedRecordsCount s' = m_deletedRecordsCount s
       ∧ m_lastRecordIndex s' = m_lastRecordIndex s).
Proof.
  intros Hvalid Hrow Hcol.
  assert (H0 : 0 ≤ QModelIndex.row index).
  { unfold QModelIndex.isValid in Hvalid.
    apply andb_true_iff in Hvalid as [Hv _].
    apply andb_true_iff in Hv as [Hv _]. by apply Z.leb_le. }
  destruct (vector_at_Some (m_records s) (QModelIndex.row index)) as [old Hat];
    [unfold rowCount in Hrow; lia|].
  rewrite setData_eq, Hvalid, Hat. simpl.
  destruct (tbl_isOpen (m_dbfTable s)); simpl.
  - destruct (tbl_updateRecordInTable _ (m_dbfTable s)) as [[] t'] eqn:Hu; simpl.
    + eexists old, true, _. rewrite Hu. simpl. repeat split; try done.
      simpl. by apply (vector_at_insert _ _ old).
    + eexists old, false, _. rewrite Hu. simpl. repeat split; try done.
      unfold cell. simpl. by rewrite Hat.
  - eexists old, false, _. repeat split; try done.
    unfold cell. by rewrite Hat.
Qed.

(** The three refusals of [setData] that leave everything as it was: a
    closed store, an invalid index, a role other than the edit role. *)
Lemma setData_refusals index value role s :
  tbl_isOpen (m_dbfTable s) = false
  ∨ QModelIndex.isValid index = false
  ∨ role ≠ Qt.EditRole →
  setData index value role s = Some (false, s, []).
Proof.
  intros H. rewrite setData_eq.
  destruct (tbl_isOpen (m_dbfTable s)); simpl; [|done].
  destruct H as [H | [-> | H]]; [done | done |].
  by rewrite (proj2 (Z.eqb_neq _ _) H), andb_false_r.
Qed.

(** [setData] checks the index for validity only.  With a valid index whose
    row is beyond the cache, [m_records.at] reads outside the vector. *)
Lemma setData_row_beyond index value s :
  tbl_isOpen (m_dbfTable s) = true →
  QModelIndex.isValid index = true →
  rowCount s QModelIndex.root ≤ QModelIndex.row index →
  setData index value Qt.EditRole s = None.
Proof.
  intros Hopen Hvalid Hrow. rewrite setData_eq, Hopen, Hvalid. simpl.
  by rewrite vector_at_None.
Qed.

(** C6.  A write through an index the model hands out
    ([QAbstractTableModel::index], for any coordinates) always returns.  It
    answers [false], leaves the whole state as it was and emits nothing
    when the store is closed, when the role is not the edit role, and when
    the row or the column is outside the table, for which the index handed
    out is the invalid one.  It does the same for a cell of the table when
    the store refuses the record and stays as it is, which is what a store
    that is not open for writing does. *)
Theorem setData_no_op s row column value role :
  (∃ answer s' signals,
     setData (QAbstractTableModel_index s row column) value role s
     = Some (answer, s', signals))
  ∧ (tbl_isOpen (m_dbfTable s) = false
     ∨ role ≠ Qt.EditRole
     ∨ row < 0 ∨ rowCount s QModelIndex.root ≤ row
     ∨ column < 0 ∨ columnCount s QModelIndex.root ≤ column →
     setData (QAbstractTableModel_index s row column) value role s
     = Some (false, s, []))
  ∧ (∀ old,
       vector_at (m_records s) row = Some old →
       tbl_updateRecordInTable (QDbfRecord.setValue column value old) (m_dbfTable s)
       = (false, m_dbfTable s) →
       setData (QAbstractTableModel_index s row column) value role s
       = Some (false, s, [])).
Proof.
  unfold QAbstractTableModel_index.
  destruct ((0 <=? row) && (0 <=? column)
            && (row <? rowCount s QModelIndex.root)
            && (column <? columnCount s QModelIndex.root)) eqn:E.
  2:{ assert (H : ∀ s' : State T,
                setData QModelIndex.root value role s' = Some (false, s', [])).
      { intros s'. apply setData_refusals. right. by left. }
      split_and!; [by eexists _, _, _ | done | done]. }
  apply andb_true_iff in E as [E Ecol]. apply andb_true_iff in E as [E Erow].
  apply andb_true_iff in E as [Er Ec].
  apply Z.leb_le in Er, Ec. apply Z.ltb_lt in Erow, Ecol.
  destruct (vector_at_Some (m_records s) row) as [old Hat];
    [unfold rowCount in Erow; lia|].
  assert (Hvalid : QModelIndex.isValid (QModelIndex.mk row column true) = true).
  { unfold QModelIndex.isValid. cbn [QModelIndex.row QModelIndex.column
                                     QModelIndex.hasModel].
    by rewrite (proj2 (Z.leb_le _ _) Er), (proj2 (Z.leb_le _ _) Ec). }
  rewrite setData_eq, Hvalid.
  cbn [QModelIndex.row QModelIndex.column andb]. rewrite Hat. cbv zeta.
  split_and!.
  - destruct (negb (tbl_isOpen (m_dbfTable s))); [by eexists _, _, _|].
    destruct (role =? Qt.EditRole); [|by eexists _, _, _].
    destruct (tbl_updateRecordInTable _ (m_dbfTable s)) as [[] t'];
      by eexists _, _, _.
  - intros [-> | [Hrole | Hout]]; [done | | lia].
    rewrite (proj2 (Z.eqb_neq _ _) Hrole). by destruct (negb _).
  - intros old' [= <-] Hupd. rewrite Hupd. cbn [fst snd].
    destruct (negb (tbl_isOpen (m_dbfTable s))); [done|].
    destruct (role =? Qt.EditRole); [|done]. by destruct s.
Qed.

(** [setHeaderData], with the monad unfolded. *)
Lemma setHeaderData_eq section orientation value role s :
  setHeaderData section orientation value role s =
  if bool_decide (orientation ≠ Qt.Horizontal) || (section <? 0)
     || (columnCount s QModelIndex.root <=? section)
  then Some (false, s, [])
  else
    let grown :=
      if Z.of_nat (length (m_headers s)) <=? section
      then resize (Z.to_nat (Z.max (section + 1) 16)) ∅ (m_headers s)
      else m_headers s in
    Some (true,
          set_headers (alter (<[role := value]>) (Z.to_nat section) grown) s,
          [headerDataChanged orientation section section]).
Proof.
  unfold setHeaderData, mbind, mret, M_bind, M_ret, gets, modify, emit. simpl.
  destruct (bool_decide (orientation ≠ Qt.Horizontal) || (section <? 0)
            || (columnCount s QModelIndex.root <=? section)); [done|].
  simpl. destruct (Z.of_nat (length (m_headers s)) <=? section); simpl; [done|].
  by destruct s.
Qed.

(** A header written for a column of the table is what the overlay then
    holds for that column and role, and one [headerDataChanged] is emitted;
    the slot written always exists, the overlay having been grown to it. *)
Lemma setHeaderData_stores section value role s :
  0 ≤ section < columnCount s QModelIndex.root →
  ∃ s',
    setHeaderData section Qt.Horizontal value role s
    = Some (true, s', [headerDataChanged Qt.Horizontal section section])
    ∧ overlay s' section role = value
    ∧ section < Z.of_nat (length (m_headers s'))
    ∧ m_records s' = m_records s
    ∧ m_deletedRecordsCount s' = m_deletedRecordsCount s
    ∧ m_lastRecordIndex s' = m_lastRecordIndex s.
Proof.
  intros Hsec. rewrite setHeaderData_eq.
  rewrite bool_decide_eq_false_2 by (by intros H; apply H).
  rewrite (proj2 (Z.ltb_ge _ _)), (proj2 (Z.leb_gt _ _)) by lia. simpl.
  eexists. split; [done|].
  set (grown := if Z.of_nat (length (m_headers s)) <=? section then _ else _).
  assert (Hlen : section < Z.of_nat (length grown)).
  { subst grown. destruct (Z.of_nat (length (m_headers s)) <=? section) eqn:E.
    - rewrite length_resize. lia.
    - by apply Z.leb_gt in E. }
  split_and!; try done.
  - unfold overlay, vector_value, vector_at, hash_value. simpl.
    rewrite (proj2 (Z.leb_le 0 section)) by lia.
    rewrite list_lookup_alter_eq.
    destruct (lookup_lt_is_Some_2 grown (Z.to_nat section)) as [h ->]; [lia|].
    simpl. by rewrite lookup_insert_eq.
  - simpl. rewrite length_alter. done.
Qed.

End WriteSide.

(** ** Fetching *)

Section Fetching.

Context {T : Type} `{!QDbfTable T}.

Implicit Types (s : State T) (index : QModelIndex.t).

(** The fuel [fetchMore] passes is never used up: any two amounts above
    what the store can still visit give the same result. *)
Lemma fetch_loop_fuel fuel1 fuel2 fetchSize fetched s :
  (tbl_remaining (m_dbfTable s) < fuel1)%nat →
  (tbl_remaining (m_dbfTable s) < fuel2)%nat →
  fetch_loop fuel1 fetchSize fetched s = fetch_loop fuel2 fetchSize fetched s.
Proof.
  revert fuel2 fetched s.
  induction fuel1 as [|fuel1 IH]; intros fuel2 fetched s H1 H2; [lia|].
  destruct fuel2 as [|fuel2]; [lia|]. simpl.
  destruct (tbl_next (m_dbfTable s)) as [[] t'] eqn:Hn; simpl; [|done].
  apply tbl_next_remaining in Hn.
  destruct (QDbfRecord.isDeleted (tbl_record t')).
  - apply IH; simpl; lia.
  - destruct (fetchSize <=? fetched + 1); [done|]. apply IH; simpl; lia.
Qed.

(** The loop appends rows, at most [fetchSize - fetched] of them (one when
    that is not positive), increments the counter of deleted records once
    for each deleted record it passes, no more often than the store has
    records left, and touches neither the overlay nor the schema record. *)
Lemma fetch_loop_frame fuel fetchSize fetched s :
  ∃ new,
    m_records (fetch_loop fuel fetchSize fetched s) = m_records s ++ new
    ∧ Z.of_nat (length new) ≤ Z.max 1 (fetchSize - fetched)
    ∧ Forall (λ r, QDbfRecord.isDeleted r = false) new
    ∧ (∃ k, (k ≤ tbl_remaining (m_dbfTable s))%nat
            ∧ m_deletedRecordsCount (fetch_loop fuel fetchSize fetched s)
              = count_on k (m_deletedRecordsCount s))
    ∧ m_headers (fetch_loop fuel fetchSize fetched s) = m_headers s
    ∧ m_record (fetch_loop fuel fetchSize fetched s) = m_record s.
Proof.
  revert fetched s. induction fuel as [|fuel IH]; intros fetched s; simpl.
  { exists []. rewrite app_nil_r. split_and!; simpl; try done; [lia|].
    exists O. split; [lia|done]. }
  destruct (tbl_next (m_dbfTable s)) as [[] t'] eqn:Hn; simpl.
  - apply tbl_next_remaining in Hn.
    destruct (QDbfRecord.isDeleted (tbl_record t')) eqn:Hd.
    + destruct (IH fetched
                  (set_deletedRecordsCount
                     (int_wrap (m_deletedRecordsCount s + 1))
                     (set_dbfTable t' s)))
        as (new & H1 & H2 & H3 & (k & Hk & H4) & H5 & H6).
      exists new. simpl in *. split_and!; try done.
      exists (S k). split; [lia|]. by rewrite H4.
    + destruct (fetchSize <=? fetched + 1) eqn:Hs.
      * exists [tbl_record t']. simpl. split_and!; try done; try lia.
        -- by repeat constructor.
        -- exists O. split; [lia|done].
      * apply Z.leb_gt in Hs.
        destruct (IH (fetched + 1)
                    (set_lastRecordIndex (tbl_at t')
                       (set_records (m_records s ++ [tbl_record t'])
                          (set_dbfTable t' s))))
          as (new & H1 & H2 & H3 & (k & Hk & H4) & H5 & H6).
        exists (tbl_record t' :: new). simpl in *.
        rewrite H1, <- app_assoc. split_and!; try done; try lia.
        -- by constructor.
        -- exists k. split; [lia|done].
  - exists []. rewrite app_nil_r. simpl. split_and!; try done; [lia|].
    exists O. split; [lia|done].
Qed.

(** [fetchMore], with the monad unfolded. *)
Lemma fetchMore_eq index s :
  fetchMore index s =
  if QModelIndex.isValid index then Some ((), s, [])
  else
    let sought := tbl_seek (m_lastRecordIndex s) (m_dbfTable s) in
    let s1 := set_dbfTable sought.2 s in
    if negb sought.1 then Some ((), s1, [])
    else
      let count := Z.of_nat (length (m_records s)) in
      let fetchSize :=
        Z.min (tbl_size sought.2 - count - m_deletedRecordsCount s) DBF_PREFETCH in
      Some ((),
            fetch_loop (S (tbl_remaining sought.2)) fetchSize 0 s1,
            [beginInsertRows index (count + 1) (count + fetchSize);
             endInsertRows]).
Proof.
  unfold fetchMore. destruct (QModelIndex.isValid index); [done|].
  unfold mbind, mret, M_bind, M_ret, gets, table_call, modify, emit. simpl.
  destruct (tbl_seek (m_lastRecordIndex s) (m_dbfTable s)) as [[] t'];
    simpl; done.
Qed.

(** C7.  Every call of [fetchMore] returns, and the rows it leaves are
    the rows it found followed by at most 255 new ones, whatever the store
    delivers and however many deleted records it passes over. *)
Theorem fetchMore_batch_bound index s :
  ∃ s' signals new,
    fetchMore index s = Some ((), s', signals)
    ∧ m_records s' = m_records s ++ new
    ∧ (length new ≤ 255)%nat.
Proof.
  rewrite fetchMore_eq.
  destruct (QModelIndex.isValid index).
  { exists s, [], []. rewrite app_nil_r. repeat split. simpl. lia. }
  cbv zeta.
  destruct (tbl_seek (m_lastRecordIndex s) (m_dbfTable s)) as [[] t'];
    cbn [fst snd negb].
  - match goal with
    | |- context [fetch_loop ?f ?n 0 ?s1] =>
        destruct (fetch_loop_frame f n 0 s1) as (new & H1 & H2 & _)
    end.
    eexists _, _, new. split; [done|]. split; [exact H1|].
    unfold DBF_PREFETCH in H2. lia.
  - eexists _, [], []. rewrite app_nil_r. repeat split. simpl. lia.
Qed.

(** What [fetchMore] announces once the seek has succeeded: before it
    asks the store for the first record, rows [count + 1] to
    [count + fetchSize] in the numbering of [beginInsertRows], which names
    the first and the last new row; after the traversal, the end of the
    insertion; and nothing else. *)
Lemma fetchMore_announces index s t' :
  QModelIndex.isValid index = false →
  tbl_seek (m_lastRecordIndex s) (m_dbfTable s) = (true, t') →
  let count := rowCount s QModelIndex.root in
  let fetchSize :=
    Z.min (tbl_size t' - count - m_deletedRecordsCount s) DBF_PREFETCH in
  ∃ s',
    fetchMore index s
    = Some ((), s', [beginInsertRows index (count + 1) (count + fetchSize);
                     endInsertRows]).
Proof.
  intros Hroot Hseek. rewrite fetchMore_eq, Hroot, Hseek.
  cbn [fst snd negb]. eauto.
Qed.

(** [fetchMore] does nothing but move the cursor of the store when it is
    asked about a valid index or when the store refuses the seek. *)
Lemma fetchMore_abandoned index s :
  QModelIndex.isValid index = true
  ∨ (tbl_seek (m_lastRecordIndex s) (m_dbfTable s)).1 = false →
  ∃ s', fetchMore index s = Some ((), s', []) ∧ cache s' = cache s.
Proof.
  intros H. rewrite fetchMore_eq.
  destruct (QModelIndex.isValid index); [eauto|].
  destruct H as [H | H]; [done|]. cbv zeta. rewrite H. simpl. eauto.
Qed.

(** [fetchMore] never touches the overlay. *)
Lemma fetchMore_headers index s s' signals :
  fetchMore index s = Some ((), s', signals) → m_headers s' = m_headers s.
Proof.
  rewrite fetchMore_eq.
  destruct (QModelIndex.isValid index); [by intros [= <- _]|].
  cbv zeta.
  destruct (tbl_seek (m_lastRecordIndex s) (m_dbfTable s)) as [[] t'];
    cbn [fst snd negb].
  - match goal with
    | |- context [fetch_loop ?f ?n 0 ?s1] =>
        destruct (fetch_loop_frame f n 0 s1) as (new & _ & _ & _ & _ & H & _);
        revert H; generalize (fetch_loop f n 0 s1)
    end.
    intros s2 H [= <- _]. by rewrite H.
  - by intros [= <- _].
Qed.

End Fetching.

(** ** Counting live and deleted records *)

Section Counting.

Implicit Types (rs : list QDbfRecord.t) (r : QDbfRecord.t).

Lemma live_deleted_length rs :
  (length (filter (λ r, QDbfRecord.isDeleted r = false) rs)
   + length (filter (λ r, QDbfRecord.isDeleted r = true) rs)
   = length rs)%nat.
Proof.
  induction rs as [|r rs IH]; [done|].
  rewrite !filter_cons.
  destruct (QDbfRecord.isDeleted r) eqn:E;
    repeat case_decide; try done; simpl; lia.
Qed.

Lemma upto_sum k rs :
  0 ≤ k ≤ Z.of_nat (length rs) → live_upto k rs + deleted_upto k rs = k.
Proof.
  intros Hk. unfold live_upto, deleted_upto.
  pose proof (live_deleted_length (take (Z.to_nat k) rs)) as H.
  rewrite length_take in H. lia.
Qed.

Lemma upto_step k rs r :
  0 ≤ k → rs !! Z.to_nat k = Some r →
  live_upto (k + 1) rs
  = live_upto k rs + (if QDbfRecord.isDeleted r then 0 else 1)
  ∧ deleted_upto (k + 1) rs
    = deleted_upto k rs + (if QDbfRecord.isDeleted r then 1 else 0).
Proof.
  intros Hk Hr. unfold live_upto, deleted_upto.
  replace (Z.to_nat (k + 1)) with (S (Z.to_nat k)) by lia.
  rewrite (take_S_r _ _ _ Hr), !filter_app, !length_app, !filter_cons, !filter_nil.
  destruct (QDbfRecord.isDeleted r); repeat case_decide; try done; simpl; lia.
Qed.

Lemma live_upto_mono k k' rs : k ≤ k' → live_upto k rs ≤ live_upto k' rs.
Proof.
  intros Hk. unfold live_upto.
  assert (H : ∀ (n m : nat) rs, (n ≤ m)%nat →
            (length (filter (λ r, QDbfRecord.isDeleted r = false) (take n rs))
             ≤ length (filter (λ r, QDbfRecord.isDeleted r = false) (take m rs)))%nat).
  { clear. intros n m rs. revert n m.
    induction rs as [|r rs IH]; intros [|n] [|m] Hnm; simpl; try lia.
    rewrite !filter_cons. specialize (IH n m ltac:(lia)).
    case_decide; simpl; lia. }
  specialize (H (Z.to_nat k) (Z.to_nat k') rs ltac:(lia)). lia.
Qed.

Lemma deleted_upto_mono k k' rs : k ≤ k' → deleted_upto k rs ≤ deleted_upto k' rs.
Proof.
  intros Hk. unfold deleted_upto.
  assert (H : ∀ (n m : nat) rs, (n ≤ m)%nat →
            (length (filter (λ r, QDbfRecord.isDeleted r = true) (take n rs))
             ≤ length (filter (λ r, QDbfRecord.isDeleted r = true) (take m rs)))%nat).
  { clear. intros n m rs. revert n m.
    induction rs as [|r rs IH]; intros [|n] [|m] Hnm; simpl; try lia.
    rewrite !filter_cons. specialize (IH n m ltac:(lia)).
    case_decide; simpl; lia. }
  specialize (H (Z.to_nat k) (Z.to_nat k') rs ltac:(lia)). lia.
Qed.

Lemma upto_nonneg k rs : 0 ≤ live_upto k rs ∧ 0 ≤ deleted_upto k rs.
Proof. unfold live_upto, deleted_upto. lia. Qed.

(** Overwriting a record by one with the same deletion flag changes no count. *)
Lemma upto_insert k i rs r r0 :
  rs !! i = Some r0 → QDbfRecord.isDeleted r = QDbfRecord.isDeleted r0 →
  live_upto k (<[i := r]> rs) = live_upto k rs
  ∧ deleted_upto k (<[i := r]> rs) = deleted_upto k rs.
Proof.
  intros Hi Hd. unfold live_upto, deleted_upto.
  generalize (Z.to_nat k). clear k. intros n.
  revert i n Hi. induction rs as [|x rs IH]; intros i n Hi; [done|].
  destruct i as [|i], n as [|n]; simpl in *; try done.
  - injection Hi as ->. rewrite !filter_cons, Hd.
    repeat case_decide; cbn [length]; done.
  - rewrite !filter_cons. destruct (IH i n Hi) as [IH1 IH2].
    repeat case_decide; cbn [length]; lia.
Qed.

End Counting.

(** ** The cache over a sequential store *)

Section Sequential.

Implicit Types (s : State SeqStore.t) (t : SeqStore.t).

Lemma set_dbfTable_id s : set_dbfTable (m_dbfTable s) s = s.
Proof. by destruct s. Qed.

(** One traversal over a sequential store.  The cursor only moves
    forward; what is appended are the live records it passed, what is
    counted the deleted ones; the bookmark is the last live record passed,
    if any; and the traversal ends on the bookmark (the batch is full) or on
    the last record of the file. *)
Lemma seq_fetch_loop fuel fetchSize fetched s :
  SeqStore.isOpen (m_dbfTable s) = true →
  -1 ≤ SeqStore.cursor (m_dbfTable s) < SeqStore.size (m_dbfTable s) →
  (Z.to_nat (SeqStore.size (m_dbfTable s) - 1 - SeqStore.cursor (m_dbfTable s))
   < fuel)%nat →
  ∃ c' new,
    let s' := fetch_loop fuel fetchSize fetched s in
    let rs := SeqStore.records (m_dbfTable s) in
    let c := SeqStore.cursor (m_dbfTable s) in
    let n := SeqStore.size (m_dbfTable s) in
    m_dbfTable s' = SeqStore.set_cursor c' (m_dbfTable s)
    ∧ c ≤ c' < n
    ∧ (c + 1 < n → c < c')
    ∧ m_records s' = m_records s ++ new
    ∧ Forall (row_ok rs) new
    ∧ Z.of_nat (length new) = live_upto (c' + 1) rs - live_upto (c + 1) rs
    ∧ m_deletedRecordsCount s'
      = count_on (Z.to_nat (deleted_upto (c' + 1) rs - deleted_upto (c + 1) rs))
                 (m_deletedRecordsCount s)
    ∧ (new = [] ∧ m_lastRecordIndex s' = m_lastRecordIndex s
       ∨ new ≠ [] ∧ c < m_lastRecordIndex s' ≤ c'
         ∧ live_upto (m_lastRecordIndex s' + 1) rs = live_upto (c' + 1) rs)
    ∧ (c' = m_lastRecordIndex s' ∨ c' = n - 1)
    ∧ m_headers s' = m_headers s
    ∧ m_record s' = m_record s.
Proof.
  revert fetched s. induction fuel as [|fuel IH]; intros fetched s Hopen Hc Hfuel;
    [lia|].
  destruct s as [[pr fa op mo sc rs c] mr rows hs d l].
  unfold SeqStore.size, SeqStore.set_cursor in *.
  cbn [m_dbfTable SeqStore.isOpen SeqStore.cursor SeqStore.records
       m_records m_deletedRecordsCount m_lastRecordIndex m_headers m_record] in *.
  subst op. cbv zeta.
  cbn [fetch_loop m_dbfTable tbl_next SeqStore_table].
  unfold SeqStore.next, SeqStore.size, SeqStore.set_cursor.
  cbn [SeqStore.isOpen SeqStore.cursor SeqStore.records andb
       SeqStore.present SeqStore.faulty SeqStore.openMode SeqStore.schema].
  set (n := Z.min (Z.of_nat (length rs)) INT_MAX) in *.
  assert (Hn : n ≤ Z.of_nat (length rs)) by (subst n; lia).
  destruct (c + 1 <? n) eqn:E.
  2:{ apply Z.ltb_ge in E. exists c, [].
      cbn [negb set_dbfTable m_dbfTable m_record m_records m_headers
           m_deletedRecordsCount m_lastRecordIndex length].
      rewrite app_nil_r, !Z.sub_diag.
      split_and!; try done; try lia.
      left. done. }
  apply Z.ltb_lt in E.
  destruct (vector_at_Some rs (c + 1)) as [r Hr]; [lia|].
  assert (Hr' : rs !! Z.to_nat (c + 1) = Some r).
  { unfold vector_at in Hr. by destruct (0 <=? c + 1). }
  destruct (upto_step (c + 1) rs r ltac:(lia) Hr') as [Hlive Hdel].
  cbn [negb set_dbfTable m_dbfTable m_record m_records m_headers
       m_deletedRecordsCount m_lastRecordIndex tbl_record tbl_at SeqStore_table].
  unfold SeqStore.record, SeqStore.at_.
  cbn [SeqStore.records SeqStore.cursor]. rewrite Hr.
  set (rec := QDbfRecord.setRecordIndex (c + 1) r).
  change (QDbfRecord.isDeleted rec) with (QDbfRecord.isDeleted r).
  destruct (QDbfRecord.isDeleted r) eqn:Hd.
  - (* a deleted record *)
    match goal with
    | |- context [fetch_loop fuel fetchSize fetched ?s1] =>
        destruct (IH fetched s1) as (c' & new & H);
          [done | cbn; fold n; lia | cbn; fold n; lia |];
          revert H; generalize (fetch_loop fuel fetchSize fetched s1)
    end.
    intros s2 H.
    cbn [set_deletedRecordsCount set_dbfTable m_dbfTable m_record m_records
         m_headers m_deletedRecordsCount m_lastRecordIndex SeqStore.records
         SeqStore.cursor SeqStore.set_cursor SeqStore.isOpen SeqStore.present
         SeqStore.faulty SeqStore.openMode SeqStore.schema] in H.
    fold n in H.
    destruct H as (H1 & H2 & H3 & H4 & H5 & H6 & H7 & H8 & H9 & H10 & H11).
    pose proof (deleted_upto_mono (c + 1 + 1) (c' + 1) rs ltac:(lia)) as Hm.
    exists c', new.
    split_and!; try done; try lia.
    + rewrite H7.
      replace (Z.to_nat (deleted_upto (c' + 1) rs - deleted_upto (c + 1) rs))
        with (S (Z.to_nat (deleted_upto (c' + 1) rs
                           - deleted_upto (c + 1 + 1) rs))) by lia.
      done.
    + destruct H8 as [H8 | (H8 & H8' & H8'')]; [by left | right].
      split_and!; try done; lia.
  - (* a live record *)
    assert (Hok : row_ok rs rec).
    { split; [done|]. cbn. intros r'. rewrite Hr. by intros [= <-]. }
    destruct (fetchSize <=? fetched + 1).
    + exists (c + 1), [rec].
      cbn [set_lastRecordIndex set_records set_dbfTable m_dbfTable m_record
           m_records m_headers m_deletedRecordsCount m_lastRecordIndex length].
      split_and!; try done; try lia.
      * constructor; [exact Hok | constructor].
      * replace (deleted_upto (c + 1 + 1) rs - deleted_upto (c + 1) rs)
          with 0 by lia.
        done.
      * right. split_and!; try done; lia.
    + match goal with
      | |- context [fetch_loop fuel fetchSize (fetched + 1) ?s1] =>
          destruct (IH (fetched + 1) s1) as (c' & new & H);
            [done | cbn; fold n; lia | cbn; fold n; lia |];
            revert H; generalize (fetch_loop fuel fetchSize (fetched + 1) s1)
      end.
      intros s2 H.
      cbn [set_lastRecordIndex set_records set_dbfTable m_dbfTable m_record
           m_records m_headers m_deletedRecordsCount m_lastRecordIndex
           SeqStore.records SeqStore.cursor SeqStore.set_cursor SeqStore.isOpen
           SeqStore.present SeqStore.faulty SeqStore.openMode SeqStore.schema]
        in H.
      fold n in H.
      destruct H as (H1 & H2 & H3 & H4 & H5 & H6 & H7 & H8 & H9 & H10 & H11).
      exists c', (rec :: new).
      rewrite H4, <- app_assoc. cbn [length].
      split_and!; try done; try lia.
      * by constructor.
      * rewrite H7. do 2 f_equal. lia.
      * right. split; [done|].
        destruct H8 as [[-> H8] | (_ & H8 & H8')]; [|lia].
        rewrite H8. cbn [length] in H6. split; lia.
Qed.

(** [fetchMore] at the root of an open sequential store whose bookmark is
    a position of the file: the seek succeeds and one traversal follows. *)
Lemma seq_fetchMore index s :
  QModelIndex.isValid index = false →
  SeqStore.isOpen (m_dbfTable s) = true →
  -1 ≤ m_lastRecordIndex s < SeqStore.size (m_dbfTable s) →
  ∃ s' c' new,
    let rs := SeqStore.records (m_dbfTable s) in
    let l := m_lastRecordIndex s in
    let n := SeqStore.size (m_dbfTable s) in
    let count := Z.of_nat (length (m_records s)) in
    let fetchSize := Z.min (n - count - m_deletedRecordsCount s) DBF_PREFETCH in
    fetchMore index s
    = Some ((), s', [beginInsertRows index (count + 1) (count + fetchSize);
                     endInsertRows])
    ∧ m_dbfTable s' = SeqStore.set_cursor c' (m_dbfTable s)
    ∧ l ≤ c' < n
    ∧ (l + 1 < n → l < c')
    ∧ m_records s' = m_records s ++ new
    ∧ Forall (row_ok rs) new
    ∧ Z.of_nat (length new) = live_upto (c' + 1) rs - live_upto (l + 1) rs
    ∧ m_deletedRecordsCount s'
      = count_on (Z.to_nat (deleted_upto (c' + 1) rs - deleted_upto (l + 1) rs))
                 (m_deletedRecordsCount s)
    ∧ (new = [] ∧ m_lastRecordIndex s' = l
       ∨ new ≠ [] ∧ l < m_lastRecordIndex s' ≤ c'
         ∧ live_upto (m_lastRecordIndex s' + 1) rs = live_upto (c' + 1) rs)
    ∧ (c' = m_lastRecordIndex s' ∨ c' = n - 1)
    ∧ m_headers s' = m_headers s
    ∧ m_record s' = m_record s.
Proof.
  intros Hroot Hopen Hl. rewrite fetchMore_eq, Hroot. cbv zeta.
  assert (Hseek : tbl_seek (m_lastRecordIndex s) (m_dbfTable s)
                  = (true, SeqStore.set_cursor (m_lastRecordIndex s) (m_dbfTable s))).
  { cbn [tbl_seek SeqStore_table]. unfold SeqStore.seek. rewrite Hopen.
    rewrite (proj2 (Z.leb_le _ _)), (proj2 (Z.ltb_lt _ _)) by lia. done. }
  rewrite Hseek. cbn [fst snd negb].
  set (s1 := set_dbfTable _ s).
  destruct (seq_fetch_loop (S (tbl_remaining (m_dbfTable s1)))
              (Z.min (tbl_size (m_dbfTable s1) - Z.of_nat (length (m_records s))
                      - m_deletedRecordsCount s) DBF_PREFETCH) 0 s1)
    as (c' & new & H).
  - done.
  - subst s1. cbn. unfold SeqStore.size in *. cbn. lia.
  - subst s1. cbn.
    unfold SeqStore.remaining, SeqStore.size, SeqStore.set_cursor. cbn. lia.
  - exists (fetch_loop (S (tbl_remaining (m_dbfTable s1)))
              (Z.min (tbl_size (m_dbfTable s1) - Z.of_nat (length (m_records s))
                      - m_deletedRecordsCount s) DBF_PREFETCH) 0 s1), c', new.
    cbv zeta in H. split; [done|]. exact H.
Qed.

(** A sequential store that is not open for writing refuses every record
    and stays as it is; a write through an index the model hands out then
    answers [false] and changes nothing. *)
Lemma seq_not_writable r t :
  SeqStore.writable t = false → tbl_updateRecordInTable r t = (false, t).
Proof.
  intros Hw. cbn [tbl_updateRecordInTable SeqStore_table].
  unfold SeqStore.updateRecordInTable. by rewrite Hw.
Qed.

Lemma seq_setData_not_writable s row column value role :
  SeqStore.writable (m_dbfTable s) = false →
  setData (QAbstractTableModel_index s row column) value role s
  = Some (false, s, []).
Proof.
  intros Hw. rewrite setData_eq.
  destruct (negb (tbl_isOpen (m_dbfTable s))); [done|].
  destruct (QModelIndex.isValid (QAbstractTableModel_index s row column)
            && (role =? Qt.EditRole)) eqn:E; [|done].
  apply andb_true_iff in E as [E _]. unfold QAbstractTableModel_index in *.
  destruct ((0 <=? row) && (0 <=? column)
            && (row <? rowCount s QModelIndex.root)
            && (column <? columnCount s QModelIndex.root)) eqn:C; [|done].
  cbn [QModelIndex.row QModelIndex.column].
  destruct (vector_at (m_records s) row) as [old|] eqn:Hat.
  - cbv zeta. rewrite seq_not_writable by done. cbn [fst snd].
    by rewrite set_dbfTable_id.
  - apply andb_true_iff in C as [C _]. apply andb_true_iff in C as [C Crow].
    apply andb_true_iff in C as [Cr _].
    apply Z.leb_le in Cr. apply Z.ltb_lt in Crow. unfold rowCount in Crow.
    destruct (vector_at_Some (m_records s) row) as [x Hx]; [lia | congruence].
Qed.

(** On a closed sequential store [fetchMore] changes nothing at all. *)
Lemma seq_fetchMore_closed index s :
  SeqStore.isOpen (m_dbfTable s) = false → fetchMore index s = Some ((), s, []).
Proof.
  intros Hclosed. rewrite fetchMore_eq.
  destruct (QModelIndex.isValid index); [done|].
  cbn [tbl_seek SeqStore_table]. unfold SeqStore.seek. rewrite Hclosed.
  cbn. by rewrite set_dbfTable_id.
Qed.

(** *** What the cache maintains *)

Lemma consistent_new exact file readOnly :
  consistent exact (QDbfTableModelPrivate_new file readOnly).
Proof.
  unfold consistent, QDbfTableModelPrivate_new, SeqStore.size, INT_MIN, INT_MAX.
  cbn. split_and!; try done; try lia. by left.
Qed.

Lemma consistent_sum s :
  consistent true s →
  Z.of_nat (length (m_records s)) + m_deletedRecordsCount s
  ≤ SeqStore.size (m_dbfTable s)
  ∧ (m_deletedRecordsCount s
     = deleted_upto (m_lastRecordIndex s + 1) (SeqStore.records (m_dbfTable s))
     ∧ Z.of_nat (length (m_records s)) + m_deletedRecordsCount s
       = m_lastRecordIndex s + 1
     ∨ Z.of_nat (length (m_records s)) + m_deletedRecordsCount s
       = SeqStore.size (m_dbfTable s)).
Proof.
  intros (I1 & I2 & I3 & I4 & _). unfold SeqStore.size in *.
  set (rs := SeqStore.records (m_dbfTable s)) in *.
  set (n := Z.min (Z.of_nat (length rs)) INT_MAX) in *.
  assert (Hn : 0 ≤ n ≤ Z.of_nat (length rs)) by (subst n; unfold INT_MAX; lia).
  pose proof (upto_sum (m_lastRecordIndex s + 1) rs ltac:(lia)) as S1.
  pose proof (upto_sum n rs ltac:(lia)) as S3.
  destruct I4 as [I4 | [I4 I5]]; split; lia.
Qed.

Lemma consistent_weaken s : consistent true s → consistent false s.
Proof.
  intros (I1 & I2 & I3 & I4 & I5).
  split; [exact I1 | split; [exact I2 | split; [exact I3 | split; [|exact I5]]]].
  destruct I4 as [I4 | [I4 _]]; [by left | by right].
Qed.

Lemma consistent_fetchMore exact index s s' signals :
  consistent exact s →
  (exact = true → canFetchMore s index = true) →
  fetchMore index s = Some ((), s', signals) →
  consistent exact s'.
Proof.
  intros Hs Hask Hf.
  destruct (QModelIndex.isValid index) eqn:Hv.
  { rewrite fetchMore_eq, Hv in Hf. by injection Hf as <- _. }
  destruct (SeqStore.isOpen (m_dbfTable s)) eqn:Ho.
  2:{ rewrite seq_fetchMore_closed in Hf by done. by injection Hf as <- _. }
  assert (Hguard : exact = true →
            Z.of_nat (length (m_records s)) + m_deletedRecordsCount s
            < SeqStore.size (m_dbfTable s)).
  { intros He. apply (canFetchMore_true s index Hv) in Hask; [|done].
    by destruct Hask as [_ Hask]. }
  clear Hask.
  destruct Hs as (I1 & I2 & I3 & I4 & I5).
  destruct (seq_fetchMore index s Hv Ho I1)
    as (s'' & c' & new & Heq & F1 & F2 & F3 & F4 & F5 & F6 & F7 & F8 & F9 & _).
  cbv zeta in *. rewrite Heq in Hf. injection Hf as <- _.
  unfold consistent. rewrite F1, F4.
  change (SeqStore.records (SeqStore.set_cursor c' (m_dbfTable s)))
    with (SeqStore.records (m_dbfTable s)).
  change (SeqStore.size (SeqStore.set_cursor c' (m_dbfTable s)))
    with (SeqStore.size (m_dbfTable s)).
  unfold SeqStore.size in *.
  set (rs := SeqStore.records (m_dbfTable s)) in *.
  set (n := Z.min (Z.of_nat (length rs)) INT_MAX) in *.
  assert (Hn : 0 ≤ n ≤ Z.of_nat (length rs) ∧ n ≤ INT_MAX)
    by (subst n; unfold INT_MAX; lia).
  pose proof (upto_sum (m_lastRecordIndex s + 1) rs ltac:(lia)) as S1.
  pose proof (upto_sum (c' + 1) rs ltac:(lia)) as S2.
  pose proof (upto_sum n rs ltac:(lia)) as S3.
  pose proof (live_upto_mono (m_lastRecordIndex s + 1) (c' + 1) rs ltac:(lia)) as M1.
  pose proof (live_upto_mono (c' + 1) n rs ltac:(lia)) as M2.
  pose proof (deleted_upto_mono (m_lastRecordIndex s + 1) (c' + 1) rs ltac:(lia))
    as M3.
  pose proof (upto_nonneg (m_lastRecordIndex s + 1) rs) as [N1 N2].
  pose proof (upto_nonneg (c' + 1) rs) as [N3 N4].
  rewrite length_app.
  assert (L1 : live_upto (m_lastRecordIndex s'' + 1) rs = live_upto (c' + 1) rs).
  { destruct F8 as [[Hnil F8] | (_ & _ & F8)]; [|done].
    rewrite F8. rewrite Hnil in F6. cbn [length] in F6. lia. }
  assert (L2 : c' = n - 1 → live_upto (c' + 1) rs = live_upto n rs
                            ∧ deleted_upto (c' + 1) rs = deleted_upto n rs).
  { intros ->. by replace (n - 1 + 1) with n by lia. }
  assert (L3 : m_deletedRecordsCount s
               = deleted_upto (m_lastRecordIndex s + 1) rs →
               m_deletedRecordsCount s'' = deleted_upto (c' + 1) rs).
  { intros HD. rewrite F7, count_on_exact; unfold INT_MIN, INT_MAX in *; lia. }
  split; [|split; [|split; [|split]]].
  - destruct F8 as [[_ F8] | (_ & F8 & _)]; lia.
  - lia.
  - by apply Forall_app.
  - destruct I4 as [I4 | [I4 I6]].
    + specialize (L3 I4). destruct F9 as [F9 | F9].
      * left. rewrite <- F9. lia.
      * right. destruct (L2 F9) as [L4 L5]. split; [lia|].
        destruct exact; [lia|done].
    + right. destruct exact.
      * specialize (Hguard eq_refl). lia.
      * split; [lia|done].
  - rewrite F7. by apply count_on_range.
Qed.

Lemma row_ok_insert rs i r x :
  row_ok rs x → QDbfRecord.isDeleted r = false → row_ok (<[i := r]> rs) x.
Proof.
  intros [Hx Hrs] Hr. split; [done|]. intros r'. unfold vector_at in *.
  destruct (0 <=? QDbfRecord.recordIndex x); [|done].
  intros [(_ & <- & _) | (_ & H)]%list_lookup_insert_Some; [done | by apply Hrs].
Qed.

Lemma consistent_setData exact index value role s answer s' signals :
  consistent exact s →
  setData index value role s = Some (answer, s', signals) →
  consistent exact s'.
Proof.
  intros Hs. rewrite setData_eq.
  destruct (negb (tbl_isOpen (m_dbfTable s))); [by intros [= _ <- _]|].
  destruct (QModelIndex.isValid index && (role =? Qt.EditRole));
    [|by intros [= _ <- _]].
  destruct (vector_at (m_records s) (QModelIndex.row index)) as [old|] eqn:Hat;
    [|done].
  cbv zeta. cbn [tbl_updateRecordInTable SeqStore_table].
  set (r := QDbfRecord.setValue (QModelIndex.column index) value old).
  unfold SeqStore.updateRecordInTable.
  destruct (SeqStore.writable (m_dbfTable s) && (0 <=? QDbfRecord.recordIndex r)
            && (QDbfRecord.recordIndex r <? SeqStore.size (m_dbfTable s))) eqn:Hw;
    cbn [fst snd]; intros [= _ <- _]; [|by rewrite set_dbfTable_id].
  apply andb_true_iff in Hw as [Hw Hw2]. apply andb_true_iff in Hw as [_ Hw1].
  apply Z.leb_le in Hw1. apply Z.ltb_lt in Hw2.
  destruct Hs as (I1 & I2 & I3 & I4 & I5).
  destruct (setValue_keeps old (QModelIndex.column index) value) as [Kd Ki].
  fold r in Kd, Ki.
  assert (Hold : row_ok (SeqStore.records (m_dbfTable s)) old).
  { unfold vector_at in Hat. destruct (0 <=? QModelIndex.row index); [|done].
    by eapply (proj1 (Forall_lookup _ _) I3). }
  destruct Hold as [Hlive Hslot].
  destruct (vector_at_Some (SeqStore.records (m_dbfTable s))
              (QDbfRecord.recordIndex r)) as [r0 Hr0];
    [unfold SeqStore.size in Hw2; lia|].
  assert (Hr0' : SeqStore.records (m_dbfTable s)
                 !! Z.to_nat (QDbfRecord.recordIndex r) = Some r0).
  { unfold vector_at in Hr0. by destruct (0 <=? QDbfRecord.recordIndex r). }
  assert (Hflag : QDbfRecord.isDeleted r = QDbfRecord.isDeleted r0).
  { rewrite Kd, Hlive. symmetry. apply Hslot. by rewrite <- Ki. }
  unfold consistent, SeqStore.size in *. cbn.
  rewrite !length_insert.
  destruct (upto_insert (m_lastRecordIndex s + 1) _ _ r r0 Hr0' Hflag) as [-> ->].
  destruct (upto_insert
              (Z.min (Z.of_nat (length (SeqStore.records (m_dbfTable s)))) INT_MAX)
              _ _ r r0 Hr0' Hflag) as [-> ->].
  split_and!; try done; try lia.
  apply Forall_insert.
  - eapply Forall_impl; [exact I3|]. intros x Hx.
    apply row_ok_insert; [done | congruence].
  - apply row_ok_insert; [|congruence].
    split; [congruence|]. rewrite Ki. exact Hslot.
Qed.

Lemma consistent_call exact c s answer s' signals :
  consistent exact s →
  (exact = true → asked s c = true) →
  call c s = Some (answer, s', signals) →
  consistent exact s'.
Proof.
  intros Hs Hask. destruct c; simpl; unfold gets;
    try (by intros [= _ <- _]).
  - unfold mbind, mret, M_bind, M_ret.
    destruct (setData index value role s) as [[[b s1] e]|] eqn:E; [|done].
    intros [= _ <- _]. by eapply consistent_setData.
  - unfold mbind, mret, M_bind, M_ret. rewrite setHeaderData_eq.
    destruct (_ || _); [by intros [= _ <- _]|]. by intros [= _ <- _].
  - unfold mbind, mret, M_bind, M_ret.
    destruct (fetchMore index s) as [[[[] s1] e]|] eqn:E; [|done].
    intros [= _ <- _]. by eapply consistent_fetchMore.
Qed.

Lemma consistent_run exact cs s s' :
  consistent exact s →
  (exact = true → polite cs s = true) →
  run cs s = Some s' →
  consistent exact s'.
Proof.
  revert s. induction cs as [|c cs IH]; intros s Hs Hp; simpl.
  { by intros [= <-]. }
  destruct (call c s) as [[[a s1] e]|] eqn:E; [|done].
  intros Hrun. apply (IH s1); [| |done].
  - eapply consistent_call; [done| |done].
    intros He. specialize (Hp He). simpl in Hp.
    by apply andb_true_iff in Hp as [Hp _].
  - intros He. specialize (Hp He). simpl in Hp. rewrite E in Hp.
    by apply andb_true_iff in Hp as [_ Hp].
Qed.

Lemma consistent_constructed exact file readOnly s0 signals :
  QDbfTableModel_new file readOnly = Some ((), s0, signals) →
  consistent exact s0.
Proof.
  unfold QDbfTableModel_new.
  destruct (canFetchMore _ QModelIndex.root) eqn:E.
  - intros Hf. eapply consistent_fetchMore; [apply consistent_new | done | done].
  - intros [= <- _]. apply consistent_new.
Qed.

(** A fetch that was asked for moves on: the rows and the counted deleted
    records together grow, so finitely many fetches reach the size of the
    store. *)
Lemma fetchMore_progress index s s' signals :
  consistent true s →
  canFetchMore s index = true →
  fetchMore index s = Some ((), s', signals) →
  rowCount s QModelIndex.root + m_deletedRecordsCount s
  < rowCount s' QModelIndex.root + m_deletedRecordsCount s'.
Proof.
  intros Hs Hask Hf.
  assert (Hv : QModelIndex.isValid index = false).
  { destruct (QModelIndex.isValid index) eqn:E; [|done].
    by rewrite canFetchMore_child in Hask. }
  apply (canFetchMore_true s index Hv) in Hask as [Ho Hlt].
  destruct (consistent_sum s Hs) as [_ Hsum].
  destruct Hs as (I1 & I2 & I3 & I4 & I5).
  destruct (seq_fetchMore index s Hv Ho I1)
    as (s'' & c' & new & Heq & F1 & F2 & F3 & F4 & F5 & F6 & F7 & _).
  cbv zeta in *. rewrite Heq in Hf. injection Hf as <- _.
  unfold rowCount in *. rewrite F4, length_app.
  cbn [tbl_size SeqStore_table] in Hlt. unfold SeqStore.size in *.
  set (rs := SeqStore.records (m_dbfTable s)) in *.
  set (n := Z.min (Z.of_nat (length rs)) INT_MAX) in *.
  assert (Hn : 0 ≤ n ≤ Z.of_nat (length rs) ∧ n ≤ INT_MAX)
    by (subst n; unfold INT_MAX; lia).
  pose proof (upto_sum (m_lastRecordIndex s + 1) rs ltac:(lia)) as S1.
  pose proof (upto_sum (c' + 1) rs ltac:(lia)) as S2.
  pose proof (deleted_upto_mono (m_lastRecordIndex s + 1) (c' + 1) rs ltac:(lia))
    as M3.
  pose proof (upto_nonneg (m_lastRecordIndex s + 1) rs) as [N1 N2].
  pose proof (upto_nonneg (c' + 1) rs) as [N3 N4].
  destruct Hsum as [[HD Hsum] | Hsum]; [|lia].
  rewrite F7, count_on_exact; unfold INT_MIN, INT_MAX in *; lia.
Qed.

(** C5, as the code has it.  In a state that the constructor and any
    sequence of calls can leave, where [canFetchMore] answers [false],
    [fetchMore] returns, appends no row and leaves the bookmark and the
    overlay as they were.  With a valid index or a closed store it changes
    nothing and emits nothing.  At the root of an open store it announces
    the insertion of an empty range and its end, and it counts the deleted
    records that follow the bookmark once more: the counter moves on by
    their number, as an [int] does. *)
Theorem fetchMore_nothing_left file readOnly cs s0 signals0 s index :
  QDbfTableModel_new file readOnly = Some ((), s0, signals0) →
  run cs s0 = Some s →
  canFetchMore s index = false →
  ∃ s' signals,
    fetchMore index s = Some ((), s', signals)
    ∧ m_records s' = m_records s
    ∧ m_lastRecordIndex s' = m_lastRecordIndex s
    ∧ m_headers s' = m_headers s
    ∧ (QModelIndex.isValid index = true ∨ tbl_isOpen (m_dbfTable s) = false →
       s' = s ∧ signals = [])
    ∧ (QModelIndex.isValid index = false → tbl_isOpen (m_dbfTable s) = true →
       m_deletedRecordsCount s'
       = int_wrap
           (m_deletedRecordsCount s
            + (deleted_upto (tbl_size (m_dbfTable s))
                            (SeqStore.records (m_dbfTable s))
               - deleted_upto (m_lastRecordIndex s + 1)
                              (SeqStore.records (m_dbfTable s))))
       ∧ ∃ fetchSize,
           fetchSize ≤ 0
           ∧ signals
             = [beginInsertRows index (rowCount s QModelIndex.root + 1)
                                (rowCount s QModelIndex.root + fetchSize);
                endInsertRows]).
Proof.
  intros Hnew Hrun Hno.
  assert (Hs : consistent false s).
  { eapply consistent_run; [|done|done]. by eapply consistent_constructed. }
  destruct (QModelIndex.isValid index) eqn:Hv.
  { exists s, []. rewrite fetchMore_eq, Hv. split_and!; done. }
  destruct (tbl_isOpen (m_dbfTable s)) eqn:Ho.
  2:{ exists s, []. rewrite seq_fetchMore_closed by done.
      split_and!; done. }
  assert (Hge : tbl_size (m_dbfTable s)
                ≤ Z.of_nat (length (m_records s)) + m_deletedRecordsCount s).
  { apply not_true_iff_false in Hno.
    rewrite (canFetchMore_true s index Hv) in Hno. unfold rowCount in Hno.
    destruct (Z.le_gt_cases (tbl_size (m_dbfTable s))
                (Z.of_nat (length (m_records s)) + m_deletedRecordsCount s));
      [done|].
    destruct Hno. split; [done | lia]. }
  destruct Hs as (I1 & I2 & I3 & I4 & I5).
  destruct (seq_fetchMore index s Hv Ho I1)
    as (s' & c' & new & Heq & F1 & F2 & F3 & F4 & F5 & F6 & F7 & F8 & F9 & F10 & F11).
  cbv zeta in *. cbn [tbl_size SeqStore_table] in *.
  unfold SeqStore.size in *. unfold rowCount.
  set (rs := SeqStore.records (m_dbfTable s)) in *.
  set (n := Z.min (Z.of_nat (length rs)) INT_MAX) in *.
  assert (Hn : 0 ≤ n ≤ Z.of_nat (length rs) ∧ n ≤ INT_MAX)
    by (subst n; unfold INT_MAX; lia).
  pose proof (upto_sum (m_lastRecordIndex s + 1) rs ltac:(lia)) as S1.
  pose proof (upto_sum (c' + 1) rs ltac:(lia)) as S2.
  pose proof (upto_sum n rs ltac:(lia)) as S3.
  pose proof (live_upto_mono (m_lastRecordIndex s + 1) (c' + 1) rs ltac:(lia)) as M1.
  pose proof (live_upto_mono (c' + 1) n rs ltac:(lia)) as M2.
  pose proof (deleted_upto_mono (m_lastRecordIndex s + 1) n rs ltac:(lia)) as M3.
  assert (Hnew0 : new = []).
  { apply length_zero_iff_nil.
    destruct I4 as [I4 | [I4 _]]; [|lia].
    assert (c' = m_lastRecordIndex s) as -> by lia. lia. }
  subst new. rewrite app_nil_r in F4.
  eexists s', _. split; [exact Heq|].
  destruct F8 as [[_ F8] | [F8 _]]; [|done].
  assert (Hend : c' = n - 1) by (destruct F9; lia).
  split_and!; try done; [by intros [|]|].
  intros _ _. split.
  - rewrite F7, count_on_wrap by exact I5. apply (f_equal int_wrap).
    rewrite Hend. replace (n - 1 + 1) with n by lia. lia.
  - eexists. split; [|done]. unfold DBF_PREFETCH. lia.
Qed.

End Sequential.

(** ** Runs on the sample tables *)

(** The store takes the write: one [dataChanged] for the cell, which then
    holds the new value. *)
Lemma setData_transaction_witness :
  (QModelIndex.isValid Sample.age0 = true
   ∧ QModelIndex.row Sample.age0 < rowCount Sample.opened QModelIndex.root
   ∧ QModelIndex.column Sample.age0 < columnCount Sample.opened QModelIndex.root)
  ∧ ∃ s',
      setData Sample.age0 (QVariant.Int 5) Qt.EditRole Sample.opened
      = Some (true, s', [dataChanged Sample.age0 Sample.age0])
      ∧ cell s' 0 1 = Some (QVariant.Int 5).
Proof.
  assert (H1 : QModelIndex.isValid Sample.age0 = true) by reflexivity.
  assert (H2 : QModelIndex.row Sample.age0 < rowCount Sample.opened QModelIndex.root)
    by (vm_compute; reflexivity).
  assert (H3 : QModelIndex.column Sample.age0
               < columnCount Sample.opened QModelIndex.root)
    by (vm_compute; reflexivity).
  split; [done|].
  destruct (setData_transaction Sample.opened Sample.age0 (QVariant.Int 5)
              H1 H2 H3)
    as (old & answer & s' & Hat & Hanswer & Hset & _ & Hacc).
  vm_compute in Hat. injection Hat as <-.
  vm_compute in Hanswer. subst answer.
  exists s'. split; [exact Hset|].
  destruct (Hacc eq_refl) as (Hrow & _). unfold cell.
  change (QModelIndex.row Sample.age0) with 0 in Hrow. by rewrite Hrow.
Defined.

(** The store refuses the write: the cell reads as before, no signal. *)
Example setData_refused_run :
  ∃ s',
    setData Sample.age0 (QVariant.Int 5) Qt.EditRole Sample.faulty
    = Some (false, s', [])
    ∧ cell s' 0 1 = Some (QVariant.Int 31)
    ∧ cache s' = cache Sample.faulty.
Proof. eexists. split_and!; [vm_compute; reflexivity | done | done]. Qed.

(** Over a file that could not be opened nothing is fetched, and neither
    [fetchMore] nor [setData] does anything. *)
Example closed_store_run :
  canFetchMore (Sample.state_of Sample.missing false) QModelIndex.root = false
  ∧ fetchMore QModelIndex.root (Sample.state_of Sample.missing false)
    = Some ((), Sample.state_of Sample.missing false, [])
  ∧ setData Sample.age0 (QVariant.Int 5) Qt.EditRole
            (Sample.state_of Sample.missing false)
    = Some (false, Sample.state_of Sample.missing false, []).
Proof. by vm_compute. Qed.

(** A store opened read-only refuses every write. *)
Example setData_read_only_run :
  setData Sample.age0 (QVariant.Int 5) Qt.EditRole
          (Sample.state_of Sample.live_deleted true)
  = Some (false, Sample.state_of Sample.live_deleted true, []).
Proof. by vm_compute. Qed.


Lemma data_cases_witness :
  data Sample.opened Sample.name0 Qt.EditRole = Sample.str "Ann"
  ∧ data Sample.opened Sample.name0 Qt.DisplayRole = Sample.str "  Ann "
  ∧ data Sample.opened Sample.age0 Qt.EditRole = QVariant.Int 31
  ∧ data Sample.opened (QModelIndex.mk 1 0 true) Qt.EditRole = QVariant.Invalid
  ∧ data Sample.opened Sample.name0 1 = QVariant.Invalid.
Proof.
  destruct (data_cases Sample.opened Sample.name0 Qt.EditRole) as [Hin _].
  destruct Hin as (stored & Hcell & Hshow & Hedit & _);
    [reflexivity | vm_compute; reflexivity | vm_compute; reflexivity |].
  vm_compute in Hcell. injection Hcell as <-.
  destruct (data_cases Sample.opened Sample.age0 Qt.EditRole) as [Hin _].
  destruct Hin as (stored & Hcell & _ & _ & Hother);
    [reflexivity | vm_compute; reflexivity | vm_compute; reflexivity |].
  vm_compute in Hcell. injection Hcell as <-.
  split_and!.
  - exact (Hedit _ eq_refl).
  - exact Hshow.
  - by apply Hother.
  - apply (data_cases Sample.opened (QModelIndex.mk 1 0 true) Qt.EditRole).
    right. left. by vm_compute.
  - apply (data_cases Sample.opened Sample.name0 1).
    right. right. right. by split.
Defined.

(** The overlay holds "Years" under the edit role of column 1 only. *)
Lemma headerData_resolution_witness :
  headerData Scenario.labelled 1 Qt.Horizontal Qt.EditRole = Sample.str "Years"
  ∧ headerData Scenario.labelled 1 Qt.Horizontal Qt.DisplayRole
    = Sample.str "Years"
  ∧ headerData Scenario.labelled 0 Qt.Horizontal Qt.DisplayRole
    = Sample.str "NAME"
  ∧ 5 < INT_MAX
  ∧ headerData Scenario.labelled 5 Qt.Horizontal Qt.DisplayRole = QVariant.Int 6
  ∧ headerData Scenario.labelled 0 Qt.Horizontal Qt.EditRole = QVariant.Invalid
  ∧ headerData Scenario.labelled 299 Qt.Vertical Qt.DisplayRole = QVariant.Int 300.
Proof.
  assert (Hmax : 5 < INT_MAX) by reflexivity.
  assert (Hint : INT_MIN ≤ 299 < INT_MAX) by (split; [discriminate | reflexivity]).
  split_and!.
  - by apply (headerData_resolution Scenario.labelled 1 Qt.EditRole).
  - by apply (headerData_resolution Scenario.labelled 1 Qt.DisplayRole).
  - by apply (headerData_resolution Scenario.labelled 0 Qt.DisplayRole).
  - exact Hmax.
  - by apply (headerData_resolution Scenario.labelled 5 Qt.DisplayRole).
  - by apply (headerData_resolution Scenario.labelled 0 Qt.EditRole).
  - exact (proj1 (proj2 (proj2 (proj2 (proj2 (proj2
             (headerData_resolution Scenario.labelled 299 Qt.DisplayRole))))))
             Hint).
Defined.

(** The last [int] has no successor: for the section [INT_MAX], with no
    overlay entry and no field of that ordinal, the display role does not
    return the section plus one. *)
Lemma headerData_overflow_counterexample :
  overlay Sample.opened INT_MAX Qt.DisplayRole = QVariant.Invalid
  ∧ overlay Sample.opened INT_MAX Qt.EditRole = QVariant.Invalid
  ∧ columnCount Sample.opened QModelIndex.root ≤ INT_MAX
  ∧ headerData Sample.opened INT_MAX Qt.Horizontal Qt.DisplayRole
    = QVariant.Int INT_MIN
  ∧ headerData Sample.opened INT_MAX Qt.Horizontal Qt.DisplayRole
    ≠ QVariant.Int (INT_MAX + 1).
Proof.
  assert (H1 : ∀ role, overlay Sample.opened INT_MAX role = QVariant.Invalid).
  { intros role. apply overlay_beyond. by vm_compute. }
  assert (H2 : columnCount Sample.opened QModelIndex.root ≤ INT_MAX)
    by (by vm_compute).
  assert (H3 : headerData Sample.opened INT_MAX Qt.Horizontal Qt.DisplayRole
               = QVariant.Int INT_MIN).
  { unfold headerData. rewrite !H1. cbn [QVariant.isValid negb andb].
    change (Qt.DisplayRole =? Qt.DisplayRole) with true. cbn [andb].
    unfold columnCount in H2. rewrite (proj2 (Z.ltb_ge _ _) H2).
    reflexivity. }
  split_and!; [apply H1 | apply H1 | exact H2 | exact H3 |].
  rewrite H3. discriminate.
Qed.

Lemma const_call_frame_witness :
  (∃ a, call (CallData Sample.name0 Qt.EditRole) Sample.opened
        = Some (a, Sample.opened, []))
  ∧ ∃ a s',
      call (CallHeaderData 40 Qt.Horizontal Qt.DisplayRole) Sample.opened
      = Some (a, s', [])
      ∧ length (m_headers s') = length (m_headers Sample.opened).
Proof.
  split.
  - by apply (const_call_frame (CallData Sample.name0 Qt.EditRole) Sample.opened).
  - apply (const_call_frame (CallRowCount QModelIndex.root) Sample.opened).
    by vm_compute.
Defined.

(** C4.  The first fetch over a table of two records, the second of them
    deleted.  The cache is empty, so the rows to come are numbered from 0
    and the claim has the insertion announced for the rows from 0 on; the
    code announces rows 1 to 2, and then puts its one row at 0. *)
Theorem fetchMore_first_announcement :
  rowCount Sample.fresh QModelIndex.root = 0
  ∧ ∃ s',
      fetchMore QModelIndex.root Sample.fresh
      = Some ((), s', [beginInsertRows QModelIndex.root 1 2; endInsertRows])
      ∧ rowCount s' QModelIndex.root = 1
      ∧ is_Some (vector_at (m_records s') 0).
Proof.
  split; [done|]. eexists.
  split_and!; [vm_compute; reflexivity | reflexivity | by eexists].
Qed.

(** Writes through indexes the model hands out: to a row beyond the
    cache, and to a cell of a table opened read-only. *)
Lemma setData_no_op_witness :
  (rowCount Sample.opened QModelIndex.root ≤ 1
   ∧ setData (QAbstractTableModel_index Sample.opened 1 0) (QVariant.Int 5)
             Qt.EditRole Sample.opened
     = Some (false, Sample.opened, []))
  ∧ (vector_at (m_records Sample.read_only) 0 = Some Written.row0
     ∧ tbl_updateRecordInTable
         (QDbfRecord.setValue 1 (QVariant.Int 5) Written.row0)
         (m_dbfTable Sample.read_only)
       = (false, m_dbfTable Sample.read_only)
     ∧ setData (QAbstractTableModel_index Sample.read_only 0 1) (QVariant.Int 5)
               Qt.EditRole Sample.read_only
       = Some (false, Sample.read_only, [])).
Proof.
  assert (H1 : rowCount Sample.opened QModelIndex.root ≤ 1) by (by vm_compute).
  assert (H2 : vector_at (m_records Sample.read_only) 0 = Some Written.row0)
    by (vm_compute; reflexivity).
  assert (H3 : tbl_updateRecordInTable
                 (QDbfRecord.setValue 1 (QVariant.Int 5) Written.row0)
                 (m_dbfTable Sample.read_only)
               = (false, m_dbfTable Sample.read_only))
    by (vm_compute; reflexivity).
  split; [split; [exact H1|] | split; [exact H2 | split; [exact H3|]]].
  - apply (setData_no_op Sample.opened 1 0 (QVariant.Int 5) Qt.EditRole).
    right. right. right. left. exact H1.
  - exact (proj2 (proj2 (setData_no_op Sample.read_only 0 1 (QVariant.Int 5)
                           Qt.EditRole)) _ H2 H3).
Defined.

(** The counter of deleted records is an [int]: at [INT_MAX] the next
    deleted record takes it to [INT_MIN]. *)
Example deleted_counter_wraps :
  int_wrap (INT_MAX + 1) = INT_MIN
  ∧ ∃ s',
      fetchMore QModelIndex.root (set_deletedRecordsCount INT_MAX Sample.opened)
      = Some ((), s', [beginInsertRows QModelIndex.root 2 (-2147483645);
                       endInsertRows])
      ∧ m_deletedRecordsCount s' = INT_MIN.
Proof.
  split; [reflexivity|]. eexists. split; [vm_compute; reflexivity | reflexivity].
Qed.

(** The constructor has fetched the whole file; a consumer that calls
    [fetchMore] once more without asking has the deleted record at the end
    of the file counted a second time. *)
Lemma count_invariant_counterexample :
  QDbfTableModel_new Sample.live_deleted false
  = Some ((), Sample.opened, [beginInsertRows QModelIndex.root 1 2; endInsertRows])
  ∧ run [CallFetchMore QModelIndex.root] Sample.opened = Some Scenario.refetched
  ∧ ¬ (rowCount Scenario.refetched QModelIndex.root
       + m_deletedRecordsCount Scenario.refetched
       ≤ tbl_size (m_dbfTable Scenario.refetched)).
Proof. by vm_compute. Qed.

(** The first batch of the table of 300 records: 255 rows and the 9
    deleted records passed on the way, 264 records of the file; one more
    round brings the rest. *)
Example three_hundred_first_batch :
  rowCount Sample.big QModelIndex.root = 255
  ∧ m_deletedRecordsCount Sample.big = 9
  ∧ m_lastRecordIndex Sample.big = 263
  ∧ ∃ s',
      fetch_rounds 1 Sample.big = Some s'
      ∧ rowCount s' QModelIndex.root = 290
      ∧ m_deletedRecordsCount s' = 10.
Proof.
  split_and!; try (by vm_compute). eexists.
  split; [vm_compute; reflexivity|]. by vm_compute.
Qed.

(** The scenario of the specification: two fetches bring the 290 live
    records of the 300, and there is nothing more to fetch. *)
Example three_hundred_run :
  rowCount Scenario.served QModelIndex.root = 290
  ∧ m_deletedRecordsCount Scenario.served = 10
  ∧ canFetchMore Scenario.served QModelIndex.root = false.
Proof. by vm_compute. Qed.

(** Nothing is left to fetch, and [fetchMore] still announces an insertion
    and counts the deleted record again. *)
Lemma fetchMore_idempotence_counterexample :
  canFetchMore Sample.opened QModelIndex.root = false
  ∧ ∃ s',
      fetchMore QModelIndex.root Sample.opened
      = Some ((), s', [beginInsertRows QModelIndex.root 2 1; endInsertRows])
      ∧ m_deletedRecordsCount Sample.opened = 1
      ∧ m_deletedRecordsCount s' = 2
      ∧ cache s' ≠ cache Sample.opened.
Proof.
  split; [done|]. eexists.
  split_and!; [vm_compute; reflexivity | done | done | by vm_compute].
Qed.

Lemma fetchMore_nothing_left_witness :
  (QDbfTableModel_new Sample.live_deleted false
   = Some ((), Sample.opened, [beginInsertRows QModelIndex.root 1 2; endInsertRows])
   ∧ run [CallData Sample.name0 Qt.EditRole] Sample.opened = Some Sample.opened
   ∧ canFetchMore Sample.opened QModelIndex.root = false)
  ∧ ∃ s' signals,
      fetchMore QModelIndex.root Sample.opened = Some ((), s', signals)
      ∧ m_records s' = m_records Sample.opened
      ∧ m_lastRecordIndex s' = m_lastRecordIndex Sample.opened
      ∧ m_headers s' = m_headers Sample.opened
      ∧ m_deletedRecordsCount s' = 2.
Proof.
  assert (H1 : QDbfTableModel_new Sample.live_deleted false
               = Some ((), Sample.opened,
                       [beginInsertRows QModelIndex.root 1 2; endInsertRows]))
    by (vm_compute; reflexivity).
  assert (H2 : run [CallData Sample.name0 Qt.EditRole] Sample.opened
               = Some Sample.opened)
    by (vm_compute; reflexivity).
  assert (H3 : canFetchMore Sample.opened QModelIndex.root = false)
    by (vm_compute; reflexivity).
  split; [done|].
  destruct (fetchMore_nothing_left Sample.live_deleted false
              [CallData Sample.name0 Qt.EditRole] Sample.opened _
              Sample.opened QModelIndex.root H1 H2 H3)
    as (s' & signals & H4 & H5 & H6 & H7 & _ & H8).
  destruct (H8 eq_refl eq_refl) as [H9 _].
  exists s', signals.
  split; [exact H4 | split; [exact H5 | split; [exact H6 | split; [exact H7|]]]].
  rewrite H9. reflexivity.
Defined.

(** * Further properties of the model *)

(** ** The header overlay *)

Section Overlay.

Context {T : Type} `{!QDbfTable T}.

Implicit Types (s : State T) (index : QModelIndex.t).

(** The slots of the overlay after [resize]: the old ones as they were,
    the new ones empty. *)
Lemma vector_value_resize (hs : list (gmap Z QVariant.t)) (n : nat) (i : Z) :
  (length hs ≤ n)%nat →
  vector_value ∅ (resize n ∅ hs) i = vector_value ∅ hs i.
Proof.
  intros Hn. unfold vector_value, vector_at. destruct (0 <=? i); [|done].
  destruct (decide (Z.to_nat i < length hs)%nat) as [Hi | Hi].
  - by rewrite lookup_resize by lia.
  - rewrite (lookup_ge_None_2 hs) by lia. simpl.
    destruct (decide (Z.to_nat i < n)%nat) as [Hi' | Hi'].
    + by rewrite lookup_resize_new by lia.
    + by rewrite lookup_resize_old by lia.
Qed.

(** X1.  [setHeaderData] always returns.  It answers [true] exactly for
    the horizontal orientation and a section that is a column of the
    table, and then emits one [headerDataChanged] for that section; it
    answers [false] otherwise, and then the state is as before and nothing
    is emitted.  In both cases the row cache, the counter of deleted
    records, the bookmark, the schema record and the store are as before. *)
Theorem setHeaderData_answer section orientation value role s :
  ∃ (answer : bool) s',
    setHeaderData section orientation value role s
    = Some (answer, s',
            if answer then [headerDataChanged orientation section section]
            else [])
    ∧ (answer = true
       ↔ orientation = Qt.Horizontal
         ∧ 0 ≤ section < columnCount s QModelIndex.root)
    ∧ (answer = false → s' = s)
    ∧ m_records s' = m_records s
    ∧ m_deletedRecordsCount s' = m_deletedRecordsCount s
    ∧ m_lastRecordIndex s' = m_lastRecordIndex s
    ∧ m_record s' = m_record s
    ∧ m_dbfTable s' = m_dbfTable s.
Proof.
  rewrite setHeaderData_eq.
  destruct (bool_decide (orientation ≠ Qt.Horizontal)) eqn:Eo; simpl.
  { apply bool_decide_eq_true in Eo. exists false, s.
    split_and!; try done; try (split; [done | intros [? _]; contradiction]). }
  apply bool_decide_eq_false in Eo.
  assert (Ho : orientation = Qt.Horizontal)
    by (destruct orientation; [done | by destruct Eo]).
  destruct (section <? 0) eqn:E0; simpl.
  { apply Z.ltb_lt in E0. exists false, s.
    split_and!; try done; try (split; [done | lia]). }
  apply Z.ltb_ge in E0.
  destruct (columnCount s QModelIndex.root <=? section) eqn:Ec.
  { apply Z.leb_le in Ec. exists false, s.
    split_and!; try done; try (split; [done | lia]). }
  apply Z.leb_gt in Ec. eexists true, _. split_and!; try done.
Qed.

(** X2.  A header written for a column is read back: the overlay holds
    the value for that column and role, [headerData] returns it for that
    role when it is valid, and a valid value written under the edit role
    is also the display header of a column that has no display entry. *)
Theorem setHeaderData_headerData section value role s :
  0 ≤ section < columnCount s QModelIndex.root →
  ∃ s',
    setHeaderData section Qt.Horizontal value role s
    = Some (true, s', [headerDataChanged Qt.Horizontal section section])
    ∧ overlay s' section role = value
    ∧ (QVariant.isValid value = true →
       headerData s' section Qt.Horizontal role = value)
    ∧ (QVariant.isValid value = true → role = Qt.EditRole →
       overlay s section Qt.DisplayRole = QVariant.Invalid →
       headerData s' section Qt.Horizontal Qt.DisplayRole = value).
Proof.
  intros Hsec.
  destruct (setHeaderData_stores section value role s Hsec)
    as (s' & Hset & Hov & _).
  exists s'. split_and!; try done.
  - intros Hv. unfold headerData. rewrite Hov, Hv, andb_false_r. by rewrite Hv.
  - intros Hv -> Hshown.
    assert (Hsame : overlay s' section Qt.DisplayRole = QVariant.Invalid).
    { rewrite setHeaderData_eq in Hset.
      rewrite bool_decide_eq_false_2 in Hset by (by intros H; apply H).
      rewrite (proj2 (Z.ltb_ge _ _)), (proj2 (Z.leb_gt _ _)) in Hset by lia.
      simpl in Hset. injection Hset as <-.
      unfold overlay, vector_value, vector_at, hash_value in *. simpl.
      destruct (0 <=? section); [|done].
      rewrite list_lookup_alter_eq.
      destruct (Z.of_nat (length (m_headers s)) <=? section) eqn:E.
      - apply Z.leb_le in E.
        rewrite lookup_resize_new by lia. simpl.
        by rewrite lookup_insert_ne, lookup_empty.
      - destruct (m_headers s !! Z.to_nat section) as [h|]; simpl in *.
        + by rewrite lookup_insert_ne.
        + done. }
    unfold headerData. rewrite Hsame. simpl. rewrite Hov. by rewrite Hv.
Qed.

(** X3.  Writing a header touches one entry of the overlay: every
    other column, and every other role of the same column, reads as
    before, whether the overlay was grown or not. *)
Theorem setHeaderData_other section orientation value role s answer s' signals :
  setHeaderData section orientation value role s = Some (answer, s', signals) →
  ∀ section' role',
    section' ≠ section ∨ role' ≠ role →
    overlay s' section' role' = overlay s section' role'
    ∧ ∀ orientation',
        section' ≠ section →
        headerData s' section' orientation' role'
        = headerData s section' orientation' role'.
Proof.
  intros Hset. rewrite setHeaderData_eq in Hset.
  destruct (bool_decide (orientation ≠ Qt.Horizontal) || (section <? 0)
            || (columnCount s QModelIndex.root <=? section)) eqn:G.
  { injection Hset as _ <- _. done. }
  apply orb_false_iff in G as [G _]. apply orb_false_iff in G as [_ G].
  apply Z.ltb_ge in G.
  cbv zeta in Hset. injection Hset as _ <- _.
  set (grown := if Z.of_nat (length (m_headers s)) <=? section then _ else _).
  assert (Hgrown : ∀ i, vector_value ∅ grown i = vector_value ∅ (m_headers s) i).
  { intros i. subst grown.
    destruct (Z.of_nat (length (m_headers s)) <=? section) eqn:E; [|done].
    apply Z.leb_le in E. apply vector_value_resize. lia. }
  assert (Hov : ∀ section' role', section' ≠ section ∨ role' ≠ role →
            overlay (set_headers
                       (alter (<[role := value]>) (Z.to_nat section) grown) s)
                    section' role'
            = overlay s section' role').
  { intros section' role' Hne. unfold overlay. simpl.
    rewrite <- Hgrown. unfold vector_value, vector_at.
    destruct (0 <=? section') eqn:E0; [|done]. apply Z.leb_le in E0.
    destruct (decide (section' = section)) as [-> | Hs].
    - destruct Hne as [Hne | Hne]; [done|].
      rewrite list_lookup_alter_eq.
      destruct (grown !! Z.to_nat section) as [h|]; [|done]. simpl.
      unfold hash_value. by rewrite lookup_insert_ne.
    - rewrite list_lookup_alter_ne by lia. done. }
  intros section' role' Hne. split; [by apply Hov|].
  intros orientation' Hs. unfold headerData.
  rewrite !Hov by auto. done.
Qed.

End Overlay.

Section Growth.

Context {T : Type} `{!QDbfTable T}.

Implicit Types (s : State T) (index : QModelIndex.t).

(** X4.  The overlay never shrinks and grows in blocks: a header written
    for a column beyond the overlay grows it to [section + 1] slots but to
    no fewer than 16; a header written inside the overlay, and a refused
    write, leave its length as it was. *)
Theorem setHeaderData_capacity section orientation value role s answer s' signals :
  setHeaderData section orientation value role s = Some (answer, s', signals) →
  (length (m_headers s) ≤ length (m_headers s'))%nat
  ∧ (answer = true → Z.of_nat (length (m_headers s)) ≤ section →
     Z.of_nat (length (m_headers s')) = Z.max (section + 1) 16)
  ∧ (answer = false ∨ section < Z.of_nat (length (m_headers s)) →
     length (m_headers s') = length (m_headers s)).
Proof.
  rewrite setHeaderData_eq.
  destruct (bool_decide (orientation ≠ Qt.Horizontal) || (section <? 0)
            || (columnCount s QModelIndex.root <=? section)) eqn:G.
  { intros [= <- <- _]. split_and!; try done. }
  cbv zeta. intros [= <- <- _]. simpl. rewrite length_alter.
  destruct (Z.of_nat (length (m_headers s)) <=? section) eqn:E.
  - apply Z.leb_le in E. rewrite length_resize. split_and!; lia.
  - apply Z.leb_gt in E. split_and!; try done; lia.
Qed.

(** X5.  The item flags.  Every index is enabled; an index is selectable
    exactly when it is valid; and it is editable exactly when it is valid
    and the store reports the read-write mode.  No other flag is set. *)
Theorem flags_bits s index :
  Z.testbit (flags s index) 5 = true
  ∧ Z.testbit (flags s index) 0 = QModelIndex.isValid index
  ∧ (Z.testbit (flags s index) 1 = true
     ↔ QModelIndex.isValid index = true
       ∧ tbl_openMode (m_dbfTable s) = ReadWrite)
  ∧ Z.land (flags s index)
           (Z.lnot (Z.lor (Z.lor Qt.ItemIsSelectable Qt.ItemIsEnabled)
                          Qt.ItemIsEditable)) = 0.
Proof.
  unfold flags.
  destruct (QModelIndex.isValid index); simpl;
    [destruct (tbl_openMode (m_dbfTable s))|]; simpl;
    split_and!; try done; split; try done; by intros [? ?].
Qed.

(** X6.  Whatever its arguments, a [setData] that returns leaves the
    number of rows, every row but the one of the index, the overlay, the
    counter of deleted records, the bookmark and the schema record as they
    were; it emits [dataChanged] for the index when it answers [true] and
    nothing when it answers [false]; and it answers [true] only for a
    valid index under the edit role on an open store. *)
Theorem setData_frame index value role s answer s' signals :
  setData index value role s = Some (answer, s', signals) →
  length (m_records s') = length (m_records s)
  ∧ (∀ i, i ≠ Z.to_nat (QModelIndex.row index) →
          m_records s' !! i = m_records s !! i)
  ∧ m_headers s' = m_headers s
  ∧ m_deletedRecordsCount s' = m_deletedRecordsCount s
  ∧ m_lastRecordIndex s' = m_lastRecordIndex s
  ∧ m_record s' = m_record s
  ∧ signals = (if answer then [dataChanged index index] else [])
  ∧ (answer = true →
     tbl_isOpen (m_dbfTable s) = true
     ∧ QModelIndex.isValid index = true
     ∧ role = Qt.EditRole).
Proof.
  rewrite setData_eq.
  destruct (tbl_isOpen (m_dbfTable s)); simpl;
    [|by intros [= <- <- <-]].
  destruct (QModelIndex.isValid index); simpl; [|by intros [= <- <- <-]].
  destruct (role =? Qt.EditRole) eqn:Er; [|by intros [= <- <- <-]].
  apply Z.eqb_eq in Er.
  destruct (vector_at (m_records s) (QModelIndex.row index)); [|done].
  destruct (tbl_updateRecordInTable _ (m_dbfTable s)) as [[] t']; simpl;
    intros [= <- <- <-]; simpl; split_and!; try done.
  - by rewrite length_insert.
  - intros i Hi. by rewrite list_lookup_insert_ne.
Qed.

(** X7.  [setData] runs into an access outside the row cache exactly when
    the store is open, the role is the edit role and the index is valid
    with a row at or beyond the number of rows; in every other case it
    returns. *)
Theorem setData_undefined index value role s :
  setData index value role s = None
  ↔ tbl_isOpen (m_dbfTable s) = true
    ∧ role = Qt.EditRole
    ∧ QModelIndex.isValid index = true
    ∧ rowCount s QModelIndex.root ≤ QModelIndex.row index.
Proof.
  rewrite setData_eq. unfold rowCount.
  destruct (tbl_isOpen (m_dbfTable s)); simpl; [|by split; [|intros [? _]]].
  destruct (QModelIndex.isValid index) eqn:Hv; simpl;
    [|by split; [|intros (_ & _ & ? & _)]].
  destruct (role =? Qt.EditRole) eqn:Er.
  2:{ apply Z.eqb_neq in Er. by split; [|intros (_ & ? & _)]. }
  apply Z.eqb_eq in Er.
  assert (H0 : 0 ≤ QModelIndex.row index).
  { unfold QModelIndex.isValid in Hv.
    apply andb_true_iff in Hv as [Hv _].
    apply andb_true_iff in Hv as [Hv _]. by apply Z.leb_le. }
  destruct (vector_at (m_records s) (QModelIndex.row index)) as [old|] eqn:Hat.
  - apply vector_at_range in Hat.
    destruct (tbl_updateRecordInTable _ (m_dbfTable s)) as [[] t']; simpl;
      (split; [done | lia]).
  - split; [|done]. intros _. split_and!; try done.
    destruct (Z.le_gt_cases (Z.of_nat (length (m_records s)))
                (QModelIndex.row index)) as [|Hlt]; [done|].
    destruct (vector_at_Some (m_records s) (QModelIndex.row index)) as [x Hx];
      [lia | congruence].
Qed.

(** X8.  What one [fetchMore] does to the cache, for every store: the
    rows it found stay in place and the rows it appends are live records;
    the overlay and the schema record are untouched; [beginInsertRows] and
    [endInsertRows] come as a pair with nothing between them, or not at
    all, and not at all exactly when the index is valid or the store
    refuses the seek, and then the counter of deleted records is as it
    was too; and a non-empty announced range bounds the rows appended. *)
Theorem fetchMore_effect index s :
  ∃ s' signals new,
    fetchMore index s = Some ((), s', signals)
    ∧ m_records s' = m_records s ++ new
    ∧ Forall (λ r, QDbfRecord.isDeleted r = false) new
    ∧ m_headers s' = m_headers s
    ∧ m_record s' = m_record s
    ∧ (signals = []
       ∧ new = []
       ∧ m_deletedRecordsCount s' = m_deletedRecordsCount s
       ∧ (QModelIndex.isValid index = true
          ∨ (tbl_seek (m_lastRecordIndex s) (m_dbfTable s)).1 = false)
       ∨ ∃ first last,
           signals = [beginInsertRows index first last; endInsertRows]
           ∧ QModelIndex.isValid index = false
           ∧ (tbl_seek (m_lastRecordIndex s) (m_dbfTable s)).1 = true
           ∧ (first ≤ last → Z.of_nat (length new) ≤ last - first + 1)).
Proof.
  rewrite fetchMore_eq.
  destruct (QModelIndex.isValid index).
  { exists s, [], []. rewrite app_nil_r. split_and!; try done.
    left. split_and!; try done. by left. }
  cbv zeta.
  destruct (tbl_seek (m_lastRecordIndex s) (m_dbfTable s)) as [[] t'];
    cbn [fst snd negb].
  - match goal with
    | |- context [fetch_loop ?f ?n 0 ?s1] =>
        destruct (fetch_loop_frame f n 0 s1)
          as (new & H1 & H2 & H3 & _ & H5 & H6);
        revert H1 H2 H3 H5 H6; generalize (fetch_loop f n 0 s1)
    end.
    intros s2 H1 H2 H3 H5 H6. simpl in *.
    eexists s2, _, new. split_and!; try done.
    right. eexists _, _. split_and!; try done. lia.
  - eexists _, [], []. rewrite app_nil_r. split_and!; try done.
    left. split_and!; try done. by right.
Qed.

End Growth.

Section Lifetime.

Context {T : Type} `{!QDbfTable T}.

Implicit Types (s : State T) (index : QModelIndex.t).

(** One call never takes anything away. *)
Lemma call_grows c s answer s' signals :
  call c s = Some (answer, s', signals) →
  (length (m_records s) ≤ length (m_records s'))%nat
  ∧ (length (m_headers s) ≤ length (m_headers s'))%nat
  ∧ m_record s' = m_record s.
Proof.
  destruct c; simpl; unfold gets; try (by intros [= _ <- _]);
    unfold mbind, mret, M_bind, M_ret.
  - rewrite setData_eq.
    destruct (negb (tbl_isOpen (m_dbfTable s))); [by intros [= _ <- _]|].
    destruct (QModelIndex.isValid index && (role =? Qt.EditRole));
      [|by intros [= _ <- _]].
    destruct (vector_at (m_records s) (QModelIndex.row index)); [|done].
    cbv zeta.
    destruct (tbl_updateRecordInTable _ (m_dbfTable s)) as [[] t']; simpl;
      intros [= _ <- _]; simpl; rewrite ?length_insert; done.
  - rewrite setHeaderData_eq.
    destruct (_ || _); [by intros [= _ <- _]|].
    cbv zeta. intros [= _ <- _]. simpl. rewrite length_alter.
    split_and!; try done.
    destruct (Z.of_nat (length (m_headers s)) <=? section) eqn:E; [|done].
    apply Z.leb_le in E. rewrite length_resize. lia.
  - rewrite fetchMore_eq.
    destruct (QModelIndex.isValid index); [by intros [= _ <- _]|].
    cbv zeta.
    destruct (tbl_seek (m_lastRecordIndex s) (m_dbfTable s)) as [[] t'];
      cbn [fst snd negb]; [|by intros [= _ <- _]].
    match goal with
    | |- context [fetch_loop ?f ?n 0 ?s1] =>
        destruct (fetch_loop_frame f n 0 s1)
          as (new & H1 & _ & _ & _ & H5 & H6);
        revert H1 H5 H6; generalize (fetch_loop f n 0 s1)
    end.
    intros s2 H1 H5 H6 [= _ <- _]. simpl in *.
    rewrite H1, H5, length_app. split_and!; try done. lia.
Qed.

(** X9.  The table only grows.  Over every sequence of calls that
    returns, on every store, the number of rows and the length of the
    overlay do not decrease, and the number of columns stays what it
    was. *)
Theorem run_grows cs s s' :
  run cs s = Some s' →
  rowCount s QModelIndex.root ≤ rowCount s' QModelIndex.root
  ∧ (length (m_headers s) ≤ length (m_headers s'))%nat
  ∧ columnCount s' QModelIndex.root = columnCount s QModelIndex.root.
Proof.
  unfold rowCount, columnCount.
  revert s. induction cs as [|c cs IH]; intros s; simpl.
  { intros [= <-]. split_and!; done. }
  destruct (call c s) as [[[a s1] e]|] eqn:E; [|done].
  intros Hrun. destruct (IH s1 Hrun) as (I1 & I3 & I4).
  destruct (call_grows c s a s1 e E) as (G1 & G3 & G4).
  rewrite I4, G4. split_and!; try done; lia.
Qed.

(** X10.  The constructor always yields a model, whatever the store does
    with [open]: at most 255 rows, all live, an empty overlay, and the
    columns of the record the store shows after [open].  The result of
    [open] is not looked at: over a store that is not open afterwards the
    model is empty, nothing was announced, and the bookmark is -1. *)
Theorem QDbfTableModel_new_result (file : T) (readOnly : bool) :
  ∃ s signals,
    QDbfTableModel_new file readOnly = Some ((), s, signals)
    ∧ rowCount s QModelIndex.root ≤ 255
    ∧ Forall (λ r, QDbfRecord.isDeleted r = false) (m_records s)
    ∧ 0 ≤ m_deletedRecordsCount s
    ∧ m_headers s = []
    ∧ columnCount s QModelIndex.root
      = QDbfRecord.count
          (tbl_record (tbl_open (if readOnly then ReadOnly else ReadWrite) file).2)
    ∧ (tbl_isOpen (tbl_open (if readOnly then ReadOnly else ReadWrite) file).2
       = false →
       s = QDbfTableModelPrivate_new file readOnly
       ∧ signals = []
       ∧ rowCount s QModelIndex.root = 0
       ∧ m_lastRecordIndex s = -1).
Proof.
  cbv zeta. unfold QDbfTableModel_new.
  set (d := QDbfTableModelPrivate_new file readOnly).
  destruct (canFetchMore d QModelIndex.root) eqn:Hc.
  - assert (Hopen : tbl_isOpen (m_dbfTable d) = true).
    { unfold canFetchMore in Hc. apply andb_true_iff in Hc as [Hc _].
      by apply andb_true_iff in Hc as [_ Hc]. }
    rewrite fetchMore_eq. change (QModelIndex.isValid QModelIndex.root) with false.
    cbv zeta.
    destruct (tbl_seek (m_lastRecordIndex d) (m_dbfTable d)) as [[] t'] eqn:Hseek;
      cbn [fst snd negb].
    + apply tbl_seek_remaining in Hseek. pose proof (tbl_size_int t') as Hint.
      match goal with
      | |- context [fetch_loop ?f ?n 0 ?s1] =>
          destruct (fetch_loop_frame f n 0 s1)
            as (new & H1 & H2 & H3 & (k & Hk & H4) & H5 & H6);
          revert H1 H2 H3 H4 H5 H6; generalize (fetch_loop f n 0 s1)
      end.
      intros s2 H1 H2 H3 H4 H5 H6. simpl in *.
      rewrite count_on_exact in H4 by (unfold INT_MIN; lia).
      eexists s2, _. unfold rowCount, columnCount.
      rewrite H1, H5, H6. simpl. unfold DBF_PREFETCH in H2.
      split_and!; try done; try lia.
      intros Hclosed. subst d. simpl in Hopen. congruence.
    + eexists _, []. split_and!; try done.
      intros Hclosed. subst d. simpl in Hopen. congruence.
  - exists d, []. split_and!; try done.
Qed.

(** X11.  A write that the store took is read back.  After [setData]
    has answered [true] for a cell of the cache whose row has a field at
    that column, [data] returns the written value under the display role
    and, under the edit role, the written value, trimmed when it is a
    string.  After an answer of [false], [data] returns for every index and
    role what it returned before. *)
Theorem setData_data index value s answer s' signals old :
  setData index value Qt.EditRole s = Some (answer, s', signals) →
  vector_at (m_records s) (QModelIndex.row index) = Some old →
  0 ≤ QModelIndex.column index < QDbfRecord.count old →
  QModelIndex.column index < columnCount s QModelIndex.root →
  (answer = true →
   data s' index Qt.DisplayRole = value
   ∧ data s' index Qt.EditRole
     = match value with
       | QVariant.String str => QVariant.String (QString.trimmed str)
       | _ => value
       end)
  ∧ (answer = false → ∀ index' role', data s' index' role' = data s index' role').
Proof.
  intros Hset Hat Hcol Hcols. rewrite setData_eq, Hat in Hset.
  destruct (negb (tbl_isOpen (m_dbfTable s))).
  { injection Hset as <- <- _. by split. }
  destruct (QModelIndex.isValid index && (Qt.EditRole =? Qt.EditRole)) eqn:Hv;
    [|injection Hset as <- <- _; by split].
  apply andb_true_iff in Hv as [Hv _].
  cbv zeta in Hset.
  destruct (tbl_updateRecordInTable _ (m_dbfTable s)) as [[] t']; simpl in Hset;
    injection Hset as <- <- _; (split; [|done]); [|done].
  intros _. apply vector_at_range in Hat as Hrange.
  unfold data, rowCount, columnCount in *. simpl. rewrite Hv, length_insert. simpl.
  rewrite (proj2 (Z.leb_gt _ _)), (proj2 (Z.leb_gt _ _)) by lia. simpl.
  rewrite (vector_at_insert _ _ old _ Hat), value_setValue by done.
  by destruct value.
Qed.

End Lifetime.

(** ** The rows of a cache over a sequential store *)

Section Coherence.

Implicit Types (s : State SeqStore.t) (rs : list QDbfRecord.t).

Lemma stamp_from_app o rs1 rs2 :
  stamp_from o (rs1 ++ rs2)
  = stamp_from o rs1 ++ stamp_from (o + Z.of_nat (length rs1)) rs2.
Proof.
  revert o. induction rs1 as [|r rs1 IH]; intros o; simpl.
  - by rewrite Z.add_0_r.
  - rewrite IH. do 3 f_equal. lia.
Qed.

Lemma stamp_from_live_length o rs :
  length (filter (λ r, QDbfRecord.isDeleted r = false) (stamp_from o rs))
  = length (filter (λ r, QDbfRecord.isDeleted r = false) rs).
Proof.
  revert o. induction rs as [|r rs IH]; intros o; [done|]. simpl.
  rewrite !filter_cons. simpl. specialize (IH (o + 1)).
  repeat case_decide; cbn [length]; try done; lia.
Qed.

Lemma live_rows_length k rs : Z.of_nat (length (live_rows k rs)) = live_upto k rs.
Proof. unfold live_rows, live_upto. by rewrite stamp_from_live_length. Qed.

Lemma live_rows_step k rs r :
  0 ≤ k → rs !! Z.to_nat k = Some r →
  live_rows (k + 1) rs
  = live_rows k rs
    ++ (if QDbfRecord.isDeleted r then [] else [QDbfRecord.setRecordIndex k r]).
Proof.
  intros Hk Hr. unfold live_rows.
  replace (Z.to_nat (k + 1)) with (S (Z.to_nat k)) by lia.
  rewrite (take_S_r _ _ _ Hr), stamp_from_app, filter_app. f_equal.
  rewrite length_take. apply lookup_lt_Some in Hr.
  replace (0 + Z.of_nat (Z.to_nat k `min` length rs)) with k by lia.
  simpl. rewrite filter_cons, filter_nil. simpl.
  destruct (QDbfRecord.isDeleted r); by case_decide.
Qed.

Lemma live_rows_mono k k' rs :
  k ≤ k' → ∃ more, live_rows k' rs = live_rows k rs ++ more.
Proof.
  intros Hk. unfold live_rows.
  assert (Htake : take (Z.to_nat k) rs
                  = take (Z.to_nat k) (take (Z.to_nat k') rs)).
  { rewrite take_take. f_equal. lia. }
  rewrite Htake. generalize (take (Z.to_nat k') rs). intros l.
  eexists. rewrite <- (take_drop (Z.to_nat k) l) at 1.
  by rewrite stamp_from_app, filter_app.
Qed.

(** No live record between two positions: the same rows up to both. *)
Lemma live_rows_same k k' rs :
  k ≤ k' → live_upto k rs = live_upto k' rs → live_rows k rs = live_rows k' rs.
Proof.
  intros Hk Hlen. destruct (live_rows_mono k k' rs Hk) as [more Hmore].
  pose proof (live_rows_length k rs) as H1.
  pose proof (live_rows_length k' rs) as H2.
  rewrite Hmore, length_app in H2.
  assert (more = []) as -> by (apply length_zero_iff_nil; lia).
  by rewrite Hmore, app_nil_r.
Qed.

(** A delivered record carries the position it was delivered from. *)
Lemma stamp_from_elem o rs r :
  r ∈ stamp_from o rs →
  ∃ r0, rs !! Z.to_nat (QDbfRecord.recordIndex r - o) = Some r0
        ∧ o ≤ QDbfRecord.recordIndex r
        ∧ r = QDbfRecord.setRecordIndex (QDbfRecord.recordIndex r) r0.
Proof.
  revert o. induction rs as [|x rs IH]; intros o; simpl.
  { by intros ?%elem_of_nil. }
  intros [-> | Hin]%elem_of_cons.
  - exists x. simpl. rewrite Z.sub_diag. split_and!; try done; lia.
  - destruct (IH (o + 1) Hin) as (r0 & Hr0 & Ho & Hr).
    exists r0. split_and!; try done; [|lia].
    replace (Z.to_nat (QDbfRecord.recordIndex r - o))
      with (S (Z.to_nat (QDbfRecord.recordIndex r - (o + 1)))) by lia.
    done.
Qed.

(** Overwriting the record of a row in the file, by a live record that
    carries the same position, overwrites that row among the delivered
    live records and nothing else. *)
Lemma stamp_from_insert o rs row old r :
  filter (λ r, QDbfRecord.isDeleted r = false) (stamp_from o rs) !! row = Some old →
  QDbfRecord.isDeleted r = false →
  QDbfRecord.recordIndex r = QDbfRecord.recordIndex old →
  filter (λ r, QDbfRecord.isDeleted r = false)
         (stamp_from o (<[Z.to_nat (QDbfRecord.recordIndex old - o) := r]> rs))
  = <[row := r]> (filter (λ r, QDbfRecord.isDeleted r = false) (stamp_from o rs)).
Proof.
  intros Hrow Hlive Hidx. revert o row Hrow.
  induction rs as [|x rs IH]; intros o row Hrow; [done|].
  simpl in Hrow. rewrite filter_cons in Hrow. simpl in Hrow.
  assert (Hrest : ∀ row',
            filter (λ r, QDbfRecord.isDeleted r = false) (stamp_from (o + 1) rs)
            !! row' = Some old →
            Z.to_nat (QDbfRecord.recordIndex old - o)
            = S (Z.to_nat (QDbfRecord.recordIndex old - (o + 1)))).
  { intros row' H. apply list_elem_of_lookup_2, list_elem_of_filter in H as [_ H].
    apply stamp_from_elem in H as (_ & _ & H & _). lia. }
  case_decide as Hx.
  - destruct row as [|row]; simpl in Hrow.
    + injection Hrow as <-. simpl. rewrite Z.sub_diag. simpl.
      rewrite !filter_cons. simpl.
      repeat (rewrite decide_True by done). simpl.
      f_equal. destruct r. simpl in *. by subst.
    + rewrite (Hrest row Hrow). simpl. rewrite !filter_cons. simpl.
      repeat (rewrite decide_True by done). simpl. f_equal. by apply IH.
  - rewrite (Hrest row Hrow). simpl. rewrite !filter_cons. simpl.
    repeat (rewrite decide_False by done). by apply IH.
Qed.

(** The rows one traversal appends are the live records it passes, as
    the store delivers them. *)
Lemma seq_fetch_loop_rows fuel fetchSize fetched s :
  SeqStore.isOpen (m_dbfTable s) = true →
  -1 ≤ SeqStore.cursor (m_dbfTable s) < SeqStore.size (m_dbfTable s) →
  (Z.to_nat (SeqStore.size (m_dbfTable s) - 1 - SeqStore.cursor (m_dbfTable s))
   < fuel)%nat →
  ∃ c' new,
    m_dbfTable (fetch_loop fuel fetchSize fetched s)
    = SeqStore.set_cursor c' (m_dbfTable s)
    ∧ SeqStore.cursor (m_dbfTable s) ≤ c'
    ∧ m_records (fetch_loop fuel fetchSize fetched s) = m_records s ++ new
    ∧ live_rows (c' + 1) (SeqStore.records (m_dbfTable s))
      = live_rows (SeqStore.cursor (m_dbfTable s) + 1)
                  (SeqStore.records (m_dbfTable s)) ++ new.
Proof.
  revert fetched s. induction fuel as [|fuel IH]; intros fetched s Hopen Hc Hfuel;
    [lia|].
  destruct s as [[pr fa op mo sc rs c] mr rows hs d l].
  unfold SeqStore.size, SeqStore.set_cursor in *.
  cbn [m_dbfTable SeqStore.isOpen SeqStore.cursor SeqStore.records
       m_records m_deletedRecordsCount m_lastRecordIndex m_headers m_record] in *.
  subst op.
  cbn [fetch_loop m_dbfTable tbl_next SeqStore_table].
  unfold SeqStore.next, SeqStore.size, SeqStore.set_cursor.
  cbn [SeqStore.isOpen SeqStore.cursor SeqStore.records andb
       SeqStore.present SeqStore.faulty SeqStore.openMode SeqStore.schema].
  set (n := Z.min (Z.of_nat (length rs)) INT_MAX) in *.
  assert (Hn : n ≤ Z.of_nat (length rs)) by (subst n; lia).
  destruct (c + 1 <? n) eqn:E.
  2:{ exists c, []. cbn. rewrite !app_nil_r. split_and!; try done; lia. }
  apply Z.ltb_lt in E.
  destruct (vector_at_Some rs (c + 1)) as [r Hr]; [lia|].
  assert (Hr' : rs !! Z.to_nat (c + 1) = Some r).
  { unfold vector_at in Hr. by destruct (0 <=? c + 1). }
  pose proof (live_rows_step (c + 1) rs r ltac:(lia) Hr') as Hstep.
  cbn [negb set_dbfTable m_dbfTable m_record m_records m_headers
       m_deletedRecordsCount m_lastRecordIndex tbl_record tbl_at SeqStore_table].
  unfold SeqStore.record, SeqStore.at_.
  cbn [SeqStore.records SeqStore.cursor]. rewrite Hr.
  set (rec := QDbfRecord.setRecordIndex (c + 1) r) in *.
  change (QDbfRecord.isDeleted rec) with (QDbfRecord.isDeleted r).
  destruct (QDbfRecord.isDeleted r) eqn:Hd.
  - match goal with
    | |- context [fetch_loop fuel fetchSize fetched ?s1] =>
        destruct (IH fetched s1) as (c' & new & H1 & H2 & H3 & H4);
          [done | cbn; fold n; lia | cbn; fold n; lia |]
    end.
    cbn in H1, H2, H3, H4. exists c', new. cbn.
    rewrite app_nil_r in Hstep. rewrite Hstep in H4.
    split_and!; try done; lia.
  - destruct (fetchSize <=? fetched + 1).
    + exists (c + 1), [rec]. cbn. split_and!; try done; lia.
    + match goal with
      | |- context [fetch_loop fuel fetchSize (fetched + 1) ?s1] =>
          destruct (IH (fetched + 1) s1) as (c' & new & H1 & H2 & H3 & H4);
            [done | cbn; fold n; lia | cbn; fold n; lia |]
      end.
      cbn in H1, H2, H3, H4. exists c', (rec :: new). cbn.
      rewrite H3, <- app_assoc. rewrite Hstep, <- app_assoc in H4.
      split_and!; try done; lia.
Qed.

Lemma seq_fetchMore_rows index s :
  QModelIndex.isValid index = false →
  SeqStore.isOpen (m_dbfTable s) = true →
  -1 ≤ m_lastRecordIndex s < SeqStore.size (m_dbfTable s) →
  ∃ s' signals c' new,
    fetchMore index s = Some ((), s', signals)
    ∧ m_dbfTable s' = SeqStore.set_cursor c' (m_dbfTable s)
    ∧ m_records s' = m_records s ++ new
    ∧ live_rows (c' + 1) (SeqStore.records (m_dbfTable s))
      = live_rows (m_lastRecordIndex s + 1) (SeqStore.records (m_dbfTable s))
        ++ new.
Proof.
  intros Hroot Hopen Hl. rewrite fetchMore_eq, Hroot. cbv zeta.
  assert (Hseek : tbl_seek (m_lastRecordIndex s) (m_dbfTable s)
                  = (true, SeqStore.set_cursor (m_lastRecordIndex s) (m_dbfTable s))).
  { cbn [tbl_seek SeqStore_table]. unfold SeqStore.seek. rewrite Hopen.
    rewrite (proj2 (Z.leb_le _ _)), (proj2 (Z.ltb_lt _ _)) by lia. done. }
  rewrite Hseek. cbn [fst snd negb].
  set (s1 := set_dbfTable _ s).
  destruct (seq_fetch_loop_rows (S (tbl_remaining (m_dbfTable s1)))
              (Z.min (tbl_size (m_dbfTable s1) - Z.of_nat (length (m_records s))
                      - m_deletedRecordsCount s) DBF_PREFETCH) 0 s1)
    as (c' & new & H1 & H2 & H3 & H4).
  - done.
  - subst s1. cbn. unfold SeqStore.size in *. cbn. lia.
  - subst s1. cbn.
    unfold SeqStore.remaining, SeqStore.size, SeqStore.set_cursor. cbn. lia.
  - eexists _, _, c', new. split; [done|]. split_and!; done.
Qed.

Lemma coherent_fetchMore index s s' signals :
  consistent false s → coherent s →
  fetchMore index s = Some ((), s', signals) →
  coherent s'.
Proof.
  intros Hs Hco Hf.
  destruct (QModelIndex.isValid index) eqn:Hv.
  { rewrite fetchMore_eq, Hv in Hf. by injection Hf as <- _. }
  destruct (SeqStore.isOpen (m_dbfTable s)) eqn:Ho.
  2:{ rewrite seq_fetchMore_closed in Hf by done. by injection Hf as <- _. }
  destruct Hs as (I1 & _).
  destruct (seq_fetchMore index s Hv Ho I1)
    as (s1 & c1 & new1 & Heq & F1 & F2 & _ & F4 & _ & _ & _ & F8 & _).
  destruct (seq_fetchMore_rows index s Hv Ho I1)
    as (s2 & e2 & c2 & new & Heq2 & R1 & R2 & R3).
  cbv zeta in *. rewrite Heq2 in Heq. injection Heq as -> _.
  rewrite Heq2 in Hf. injection Hf as <- _.
  assert (c2 = c1) as ->.
  { rewrite R1 in F1. by apply (f_equal SeqStore.cursor) in F1. }
  assert (new1 = new) as ->.
  { rewrite R2 in F4. by apply app_inv_head in F4. }
  unfold coherent in *. rewrite R1, R2.
  change (SeqStore.records (SeqStore.set_cursor c1 (m_dbfTable s)))
    with (SeqStore.records (m_dbfTable s)).
  rewrite Hco, <- R3.
  destruct F8 as [[-> F8] | (_ & F8 & F8')].
  - rewrite F8. by rewrite R3, app_nil_r.
  - symmetry. apply live_rows_same; [lia | done].
Qed.

Lemma coherent_setData index value role s answer s' signals :
  consistent false s → coherent s →
  setData index value role s = Some (answer, s', signals) →
  coherent s'.
Proof.
  intros Hs Hco. rewrite setData_eq.
  destruct (negb (tbl_isOpen (m_dbfTable s))); [by intros [= _ <- _]|].
  destruct (QModelIndex.isValid index && (role =? Qt.EditRole));
    [|by intros [= _ <- _]].
  destruct (vector_at (m_records s) (QModelIndex.row index)) as [old|] eqn:Hat;
    [|done].
  cbv zeta. cbn [tbl_updateRecordInTable SeqStore_table].
  set (r := QDbfRecord.setValue (QModelIndex.column index) value old).
  unfold SeqStore.updateRecordInTable.
  destruct (SeqStore.writable (m_dbfTable s) && (0 <=? QDbfRecord.recordIndex r)
            && (QDbfRecord.recordIndex r <? SeqStore.size (m_dbfTable s)));
    cbn [fst snd]; intros [= _ <- _]; [|by rewrite set_dbfTable_id].
  destruct (setValue_keeps old (QModelIndex.column index) value) as [Kd Ki].
  fold r in Kd, Ki.
  assert (Hrow : m_records s !! Z.to_nat (QModelIndex.row index) = Some old).
  { unfold vector_at in Hat. by destruct (0 <=? QModelIndex.row index). }
  destruct Hs as (_ & _ & I3 & _).
  assert (Hlive : QDbfRecord.isDeleted old = false).
  { by destruct (proj1 (Forall_lookup _ _) I3 _ _ Hrow). }
  unfold coherent in *. cbn. rewrite Hco in Hrow |- *.
  unfold live_rows in *.
  set (n := Z.to_nat (m_lastRecordIndex s + 1)) in *.
  assert (Hin : old ∈ stamp_from 0 (take n (SeqStore.records (m_dbfTable s)))).
  { by apply list_elem_of_lookup_2, list_elem_of_filter in Hrow as [_ ?]. }
  apply stamp_from_elem in Hin as (r0 & Hr0 & Hpos & _).
  rewrite Z.sub_0_r in Hr0.
  apply lookup_lt_Some in Hr0 as Hlt. rewrite length_take in Hlt.
  rewrite Ki, take_insert_lt by lia.
  rewrite <- (Z.sub_0_r (QDbfRecord.recordIndex old)).
  symmetry. apply stamp_from_insert; [done | congruence | done].
Qed.

Lemma coherent_run cs s s' :
  consistent false s → coherent s → run cs s = Some s' → coherent s'.
Proof.
  revert s. induction cs as [|c cs IH]; intros s Hs Hco; simpl.
  { by intros [= <-]. }
  destruct (call c s) as [[[a s1] e]|] eqn:E; [|done].
  intros Hrun. apply (IH s1); [| |done].
  - by eapply consistent_call.
  - clear IH Hrun. destruct c; simpl in E; unfold gets in E;
      try (by injection E as _ <- _);
      unfold mbind, mret, M_bind, M_ret in E.
    + destruct (setData index value role s) as [[[b s2] e2]|] eqn:E2; [|done].
      injection E as _ <- _. by eapply coherent_setData.
    + rewrite setHeaderData_eq in E.
      destruct (_ || _) in E; by injection E as _ <- _.
    + destruct (fetchMore index s) as [[[[] s2] e2]|] eqn:E2; [|done].
      injection E as _ <- _. by eapply coherent_fetchMore.
Qed.

Lemma coherent_constructed file readOnly s0 signals :
  QDbfTableModel_new file readOnly = Some ((), s0, signals) → coherent s0.
Proof.
  unfold QDbfTableModel_new.
  destruct (canFetchMore _ QModelIndex.root).
  - intros Hf. eapply coherent_fetchMore; [apply consistent_new | done | done].
  - by intros [= <- _].
Qed.

(** *** What has been fetched *)

(** Under the protocol the rows and the counter account for a prefix of
    the file: the rows are its live records, the counter the number of its
    deleted ones. *)
Lemma fetched_prefix s :
  consistent true s → coherent s →
  m_records s
  = live_rows (rowCount s QModelIndex.root + m_deletedRecordsCount s)
              (SeqStore.records (m_dbfTable s))
  ∧ m_deletedRecordsCount s
    = deleted_upto (rowCount s QModelIndex.root + m_deletedRecordsCount s)
                   (SeqStore.records (m_dbfTable s)).
Proof.
  intros Hs Hco. destruct (consistent_sum s Hs) as [_ Hsum].
  destruct Hs as (I1 & I2 & _ & I4 & _).
  unfold rowCount, coherent in *.
  destruct Hsum as [[HD Hk] | Hk]; rewrite Hk; [by split|].
  destruct I4 as [I4 | [I4 I6]].
  - unfold SeqStore.size in *.
    set (rs := SeqStore.records (m_dbfTable s)) in *.
    pose proof (upto_sum (m_lastRecordIndex s + 1) rs ltac:(lia)) as S1.
    assert (Hend : Z.min (Z.of_nat (length rs)) INT_MAX = m_lastRecordIndex s + 1)
      by lia.
    rewrite Hend. by split.
  - split; [|done]. rewrite Hco. apply live_rows_same; [lia | done].
Qed.

(** A view that fills itself is done after at most as many rounds as
    records are left to fetch: every round that is asked for moves on. *)
Lemma fetch_rounds_done rounds s :
  consistent true s → coherent s →
  SeqStore.isOpen (m_dbfTable s) = true →
  SeqStore.size (m_dbfTable s)
  - (rowCount s QModelIndex.root + m_deletedRecordsCount s) ≤ Z.of_nat rounds →
  ∃ s',
    fetch_rounds rounds s = Some s'
    ∧ consistent true s' ∧ coherent s'
    ∧ SeqStore.isOpen (m_dbfTable s') = true
    ∧ SeqStore.records (m_dbfTable s') = SeqStore.records (m_dbfTable s)
    ∧ canFetchMore s' QModelIndex.root = false.
Proof.
  revert s. induction rounds as [|rounds IH]; intros s Hs Hco Ho Hm.
  - exists s. split_and!; try done.
    apply not_true_iff_false.
    rewrite (canFetchMore_true s QModelIndex.root eq_refl).
    intros [_ Hlt]. cbn [tbl_size SeqStore_table] in Hlt. lia.
  - cbn [fetch_rounds].
    destruct (canFetchMore s QModelIndex.root) eqn:Hc; [|by exists s].
    destruct (seq_fetchMore QModelIndex.root s eq_refl Ho (proj1 Hs))
      as (s1 & c' & new & Heq & F1 & _).
    cbv zeta in Heq. rewrite Heq.
    assert (Hs1 : consistent true s1) by (by eapply consistent_fetchMore).
    assert (Hco1 : coherent s1).
    { exact (coherent_fetchMore QModelIndex.root s s1 _
               (consistent_weaken s Hs) Hco Heq). }
    pose proof (fetchMore_progress _ _ _ _ Hs Hc Heq) as Hp.
    destruct (IH s1 Hs1 Hco1) as (s' & Hr & Hs' & Hco' & Ho' & Hrec & Hno).
    + by rewrite F1.
    + rewrite F1.
      change (SeqStore.size (SeqStore.set_cursor c' (m_dbfTable s)))
        with (SeqStore.size (m_dbfTable s)).
      lia.
    + exists s'. split_and!; try done. by rewrite Hrec, F1.
Qed.

(** C2, for a consumer that follows the protocol.  After the
    construction and any sequence of calls in which [fetchMore] is called
    only where [canFetchMore] answers [true], the live rows and the counted
    deleted records together are at most the records of the store, and
    they account for the file up to there: the rows are the live records
    among the first [rowCount + deleted] of the file, as the store
    delivers them, and the counter is the number of deleted records among
    these.  On an open store they are as many as the store has records
    exactly when [canFetchMore] answers [false]; and a view that goes on
    fetching while [canFetchMore] answers [true] gets there in no more
    rounds than records are left: then every live record of the file is a
    row and every deleted one is counted once. *)
Theorem polite_count_invariant file readOnly cs s0 signals s :
  QDbfTableModel_new file readOnly = Some ((), s0, signals) →
  polite cs s0 = true →
  run cs s0 = Some s →
  rowCount s QModelIndex.root + m_deletedRecordsCount s
  ≤ tbl_size (m_dbfTable s)
  ∧ m_records s
    = live_rows (rowCount s QModelIndex.root + m_deletedRecordsCount s)
                (SeqStore.records (m_dbfTable s))
  ∧ m_deletedRecordsCount s
    = deleted_upto (rowCount s QModelIndex.root + m_deletedRecordsCount s)
                   (SeqStore.records (m_dbfTable s))
  ∧ (tbl_isOpen (m_dbfTable s) = true →
     (canFetchMore s QModelIndex.root = false
      ↔ rowCount s QModelIndex.root + m_deletedRecordsCount s
        = tbl_size (m_dbfTable s))
     ∧ ∃ s',
         fetch_rounds
           (Z.to_nat (tbl_size (m_dbfTable s)
                      - (rowCount s QModelIndex.root + m_deletedRecordsCount s)))
           s
         = Some s'
         ∧ SeqStore.records (m_dbfTable s') = SeqStore.records (m_dbfTable s)
         ∧ rowCount s' QModelIndex.root + m_deletedRecordsCount s'
           = tbl_size (m_dbfTable s')
         ∧ m_records s'
           = live_rows (tbl_size (m_dbfTable s'))
                       (SeqStore.records (m_dbfTable s'))
         ∧ m_deletedRecordsCount s'
           = deleted_upto (tbl_size (m_dbfTable s'))
                          (SeqStore.records (m_dbfTable s'))).
Proof.
  intros Hnew Hpolite Hrun.
  assert (Hs : consistent true s).
  { eapply consistent_run; [|done|done]. by eapply consistent_constructed. }
  assert (Hco : coherent s).
  { eapply coherent_run; [| |done].
    - by eapply consistent_constructed.
    - by eapply coherent_constructed. }
  assert (Hfull : ∀ s1 : State SeqStore.t,
            consistent true s1 → tbl_isOpen (m_dbfTable s1) = true →
            canFetchMore s1 QModelIndex.root = false
            ↔ rowCount s1 QModelIndex.root + m_deletedRecordsCount s1
              = tbl_size (m_dbfTable s1)).
  { intros s1 Hs1 Ho1. destruct (consistent_sum s1 Hs1) as [Hle1 _].
    rewrite <- not_true_iff_false,
      (canFetchMore_true s1 QModelIndex.root eq_refl).
    cbn [tbl_size SeqStore_table]. unfold rowCount in *.
    split.
    - intros H.
      assert (¬ Z.of_nat (length (m_records s1)) + m_deletedRecordsCount s1
                < SeqStore.size (m_dbfTable s1)) by tauto.
      lia.
    - intros H [_ Hlt]. lia. }
  destruct (consistent_sum s Hs) as [Hle _].
  destruct (fetched_prefix s Hs Hco) as [P1 P2].
  split; [exact Hle|]. split; [exact P1|]. split; [exact P2|].
  intros Ho. split; [by apply Hfull|].
  destruct (fetch_rounds_done
              (Z.to_nat (tbl_size (m_dbfTable s)
                         - (rowCount s QModelIndex.root
                            + m_deletedRecordsCount s)))
              s Hs Hco Ho)
    as (s' & Hr & Hs' & Hco' & Ho' & Hrec & Hno).
  { cbn [tbl_size SeqStore_table]. unfold rowCount in *. lia. }
  exists s'. split; [exact Hr|]. split; [exact Hrec|].
  apply (Hfull s' Hs' Ho') in Hno.
  destruct (fetched_prefix s' Hs' Hco') as [Q1 Q2]. rewrite Hno in Q1, Q2.
  by split_and!.
Qed.

(** X12.  The cache follows the store.  After the construction and any
    sequence of calls, asked for or not, with writes taken or refused, the
    rows of the cache are the live records of the file up to the bookmark,
    in the order of the file; and every row is the record the file holds
    at the position the row carries. *)
Theorem cache_follows_store file readOnly cs s0 signals s :
  QDbfTableModel_new file readOnly = Some ((), s0, signals) →
  run cs s0 = Some s →
  m_records s
  = live_rows (m_lastRecordIndex s + 1) (SeqStore.records (m_dbfTable s))
  ∧ ∀ row r,
      m_records s !! row = Some r →
      ∃ r0,
        vector_at (SeqStore.records (m_dbfTable s)) (QDbfRecord.recordIndex r)
        = Some r0
        ∧ r = QDbfRecord.setRecordIndex (QDbfRecord.recordIndex r) r0.
Proof.
  intros Hnew Hrun.
  assert (Hco : coherent s).
  { eapply coherent_run; [| |done].
    - by eapply consistent_constructed.
    - by eapply coherent_constructed. }
  split; [exact Hco|]. intros row r Hr. rewrite Hco in Hr.
  apply list_elem_of_lookup_2, list_elem_of_filter in Hr as [_ Hin].
  apply stamp_from_elem in Hin as (r0 & Hr0 & Hpos & Heq).
  rewrite Z.sub_0_r in Hr0. apply lookup_take_Some in Hr0 as [Hr0 _].
  exists r0. split; [|done]. unfold vector_at.
  by rewrite (proj2 (Z.leb_le _ _)) by lia.
Qed.

(** X13.  When [canFetchMore] answers [false] at the root of an open
    store, after the construction and any sequence of calls, the cache
    holds every live record of the file, in the order of the file, and no
    other row. *)
Theorem cache_complete file readOnly cs s0 signals s :
  QDbfTableModel_new file readOnly = Some ((), s0, signals) →
  run cs s0 = Some s →
  tbl_isOpen (m_dbfTable s) = true →
  canFetchMore s QModelIndex.root = false →
  m_records s
  = live_rows (SeqStore.size (m_dbfTable s)) (SeqStore.records (m_dbfTable s))
  ∧ rowCount s QModelIndex.root
    = live_upto (SeqStore.size (m_dbfTable s)) (SeqStore.records (m_dbfTable s)).
Proof.
  intros Hnew Hrun Hopen Hno.
  assert (Hs : consistent false s).
  { eapply consistent_run; [|done|done]. by eapply consistent_constructed. }
  assert (Hco : coherent s).
  { eapply coherent_run; [| |done].
    - by eapply consistent_constructed.
    - by eapply coherent_constructed. }
  apply not_true_iff_false in Hno.
  rewrite (canFetchMore_true s QModelIndex.root eq_refl) in Hno.
  unfold rowCount in *. cbn [tbl_size SeqStore_table] in Hno.
  destruct Hs as (I1 & I2 & _ & I4 & _).
  unfold coherent in Hco. unfold SeqStore.size in *.
  set (rs := SeqStore.records (m_dbfTable s)) in *.
  set (n := Z.min (Z.of_nat (length rs)) INT_MAX) in *.
  assert (Hn : 0 ≤ n ≤ Z.of_nat (length rs)) by (subst n; unfold INT_MAX; lia).
  pose proof (upto_sum (m_lastRecordIndex s + 1) rs ltac:(lia)) as S1.
  pose proof (upto_sum n rs ltac:(lia)) as S3.
  assert (Hlive : live_upto (m_lastRecordIndex s + 1) rs = live_upto n rs).
  { destruct I4 as [I4 | [I4 _]]; [|done].
    assert (m_lastRecordIndex s + 1 = n) as ->; [|done].
    destruct (Z.lt_ge_cases (m_lastRecordIndex s + 1) n); [|lia].
    destruct Hno. split; [done | lia]. }
  split; [|lia]. rewrite Hco. apply live_rows_same; [lia | done].
Qed.

(** X14.  A fetch that was asked for advances.  After the construction
    and a sequence of calls that follows the protocol, a [fetchMore] where
    [canFetchMore] answers [true] returns with more rows and counted
    deleted records together than before, and still no more than the store
    has records: at most as many such fetches as the store has records
    bring the whole file. *)
Theorem asked_fetch_advances file readOnly cs s0 signals0 s index :
  QDbfTableModel_new file readOnly = Some ((), s0, signals0) →
  polite cs s0 = true →
  run cs s0 = Some s →
  canFetchMore s index = true →
  ∃ s' signals,
    fetchMore index s = Some ((), s', signals)
    ∧ rowCount s QModelIndex.root + m_deletedRecordsCount s
      < rowCount s' QModelIndex.root + m_deletedRecordsCount s'
    ∧ rowCount s' QModelIndex.root + m_deletedRecordsCount s'
      ≤ tbl_size (m_dbfTable s').
Proof.
  intros Hnew Hpolite Hrun Hask.
  assert (Hs : consistent true s).
  { eapply consistent_run; [|done|done]. by eapply consistent_constructed. }
  destruct (fetchMore index s) as [[[[] s'] e]|] eqn:Hf.
  - exists s', e. split; [done|]. split.
    + by eapply fetchMore_progress.
    + assert (Hs' : consistent true s') by (by eapply consistent_fetchMore).
      apply consistent_sum in Hs' as [Hle _]. exact Hle.
  - rewrite fetchMore_eq in Hf.
    destruct (QModelIndex.isValid index); [done|]. cbv zeta in Hf.
    by destruct (negb _) in Hf.
Qed.

End Coherence.

(** ** Runs for the further properties *)

Lemma setHeaderData_headerData_witness :
  0 ≤ 1 < columnCount Sample.opened QModelIndex.root
  ∧ ∃ s',
      setHeaderData 1 Qt.Horizontal (Sample.str "Years") Qt.EditRole Sample.opened
      = Some (true, s', [headerDataChanged Qt.Horizontal 1 1])
      ∧ headerData s' 1 Qt.Horizontal Qt.EditRole = Sample.str "Years"
      ∧ headerData s' 1 Qt.Horizontal Qt.DisplayRole = Sample.str "Years".
Proof.
  assert (H1 : 0 ≤ 1 < columnCount Sample.opened QModelIndex.root)
    by (split; by vm_compute).
  split; [exact H1|].
  destruct (setHeaderData_headerData 1 (Sample.str "Years") Qt.EditRole
              Sample.opened H1)
    as (s' & Hset & _ & Hexact & Hshown).
  exists s'. split; [exact Hset|]. split.
  - by apply Hexact.
  - by apply Hshown.
Defined.

Lemma setHeaderData_other_witness :
  setHeaderData 1 Qt.Horizontal (Sample.str "Years") Qt.EditRole Sample.opened
  = Some (true, Scenario.labelled, [headerDataChanged Qt.Horizontal 1 1])
  ∧ overlay Scenario.labelled 1 Qt.DisplayRole
    = overlay Sample.opened 1 Qt.DisplayRole
  ∧ headerData Scenario.labelled 0 Qt.Horizontal Qt.DisplayRole
    = headerData Sample.opened 0 Qt.Horizontal Qt.DisplayRole.
Proof.
  assert (H1 : setHeaderData 1 Qt.Horizontal (Sample.str "Years") Qt.EditRole
                 Sample.opened
               = Some (true, Scenario.labelled,
                       [headerDataChanged Qt.Horizontal 1 1]))
    by (vm_compute; reflexivity).
  split; [exact H1|]. split.
  - apply (setHeaderData_other _ _ _ _ _ _ _ _ H1 1 Qt.DisplayRole).
    right. discriminate.
  - apply (setHeaderData_other _ _ _ _ _ _ _ _ H1 0 Qt.DisplayRole);
      [left|]; discriminate.
Defined.

Lemma setHeaderData_capacity_witness :
  setHeaderData 1 Qt.Horizontal (Sample.str "Years") Qt.EditRole Sample.opened
  = Some (true, Scenario.labelled, [headerDataChanged Qt.Horizontal 1 1])
  ∧ Z.of_nat (length (m_headers Sample.opened)) ≤ 1
  ∧ Z.of_nat (length (m_headers Scenario.labelled)) = Z.max (1 + 1) 16.
Proof.
  assert (H1 : setHeaderData 1 Qt.Horizontal (Sample.str "Years") Qt.EditRole
                 Sample.opened
               = Some (true, Scenario.labelled,
                       [headerDataChanged Qt.Horizontal 1 1]))
    by (vm_compute; reflexivity).
  assert (H2 : Z.of_nat (length (m_headers Sample.opened)) ≤ 1)
    by (by vm_compute).
  split; [exact H1|]. split; [exact H2|].
  by apply (setHeaderData_capacity _ _ _ _ _ _ _ _ H1).
Defined.

Lemma setData_frame_witness :
  setData Sample.age0 (QVariant.Int 5) Qt.EditRole Sample.opened
  = Some (true, Written.state, [dataChanged Sample.age0 Sample.age0])
  ∧ length (m_records Written.state) = length (m_records Sample.opened)
  ∧ m_headers Written.state = m_headers Sample.opened
  ∧ m_lastRecordIndex Written.state = m_lastRecordIndex Sample.opened.
Proof.
  assert (H1 : setData Sample.age0 (QVariant.Int 5) Qt.EditRole Sample.opened
               = Some (true, Written.state, [dataChanged Sample.age0 Sample.age0]))
    by (vm_compute; reflexivity).
  split; [exact H1|].
  destruct (setData_frame _ _ _ _ _ _ _ H1) as (F1 & _ & F3 & _ & F5 & _).
  by split_and!.
Defined.

Lemma run_grows_witness :
  run Scenario.calls Sample.big = Some Scenario.served
  ∧ rowCount Sample.big QModelIndex.root
    ≤ rowCount Scenario.served QModelIndex.root
  ∧ columnCount Scenario.served QModelIndex.root
    = columnCount Sample.big QModelIndex.root.
Proof.
  assert (H1 : run Scenario.calls Sample.big = Some Scenario.served)
    by (vm_compute; reflexivity).
  split; [exact H1|].
  destruct (run_grows _ _ _ H1) as (G1 & _ & G4).
  split; [exact G1 | exact G4].
Defined.

Lemma setData_data_witness :
  (setData Sample.age0 (QVariant.Int 5) Qt.EditRole Sample.opened
   = Some (true, Written.state, [dataChanged Sample.age0 Sample.age0])
   ∧ vector_at (m_records Sample.opened) (QModelIndex.row Sample.age0)
     = Some Written.row0
   ∧ 0 ≤ QModelIndex.column Sample.age0 < QDbfRecord.count Written.row0
   ∧ QModelIndex.column Sample.age0 < columnCount Sample.opened QModelIndex.root)
  ∧ data Written.state Sample.age0 Qt.DisplayRole = QVariant.Int 5
  ∧ data Written.state Sample.age0 Qt.EditRole = QVariant.Int 5.
Proof.
  assert (H1 : setData Sample.age0 (QVariant.Int 5) Qt.EditRole Sample.opened
               = Some (true, Written.state, [dataChanged Sample.age0 Sample.age0]))
    by (vm_compute; reflexivity).
  assert (H2 : vector_at (m_records Sample.opened) (QModelIndex.row Sample.age0)
               = Some Written.row0)
    by (vm_compute; reflexivity).
  assert (H3 : 0 ≤ QModelIndex.column Sample.age0 < QDbfRecord.count Written.row0)
    by (split; by vm_compute).
  assert (H4 : QModelIndex.column Sample.age0
               < columnCount Sample.opened QModelIndex.root)
    by (vm_compute; reflexivity).
  split; [by split_and!|].
  destruct (setData_data _ _ _ _ _ _ _ H1 H2 H3 H4) as [Htrue _].
  exact (Htrue eq_refl).
Defined.

Lemma cache_follows_store_witness :
  (QDbfTableModel_new Sample.live_deleted false
   = Some ((), Sample.opened, [beginInsertRows QModelIndex.root 1 2; endInsertRows])
   ∧ run [CallSetData Sample.age0 (QVariant.Int 5) Qt.EditRole] Sample.opened
     = Some Written.state)
  ∧ m_records Written.state
    = live_rows (m_lastRecordIndex Written.state + 1)
                (SeqStore.records (m_dbfTable Written.state)).
Proof.
  assert (H1 : QDbfTableModel_new Sample.live_deleted false
               = Some ((), Sample.opened,
                       [beginInsertRows QModelIndex.root 1 2; endInsertRows]))
    by (vm_compute; reflexivity).
  assert (H2 : run [CallSetData Sample.age0 (QVariant.Int 5) Qt.EditRole]
                   Sample.opened
               = Some Written.state)
    by (vm_compute; reflexivity).
  split; [split; [exact H1 | exact H2]|].
  exact (proj1 (cache_follows_store _ _ _ _ _ _ H1 H2)).
Defined.

Lemma cache_complete_witness :
  (QDbfTableModel_new Sample.three_hundred false
   = Some ((), Sample.big, [beginInsertRows QModelIndex.root 1 255; endInsertRows])
   ∧ run Scenario.calls Sample.big = Some Scenario.served
   ∧ tbl_isOpen (m_dbfTable Scenario.served) = true
   ∧ canFetchMore Scenario.served QModelIndex.root = false)
  ∧ rowCount Scenario.served QModelIndex.root
    = live_upto (SeqStore.size (m_dbfTable Scenario.served))
                (SeqStore.records (m_dbfTable Scenario.served)).
Proof.
  assert (H1 : QDbfTableModel_new Sample.three_hundred false
               = Some ((), Sample.big,
                       [beginInsertRows QModelIndex.root 1 255; endInsertRows]))
    by (vm_compute; reflexivity).
  assert (H2 : run Scenario.calls Sample.big = Some Scenario.served)
    by (vm_compute; reflexivity).
  assert (H3 : tbl_isOpen (m_dbfTable Scenario.served) = true)
    by (vm_compute; reflexivity).
  assert (H4 : canFetchMore Scenario.served QModelIndex.root = false)
    by (vm_compute; reflexivity).
  split; [split; [exact H1 | split; [exact H2 | split; [exact H3 | exact H4]]]|].
  exact (proj2 (cache_complete _ _ _ _ _ _ H1 H2 H3 H4)).
Defined.

Lemma asked_fetch_advances_witness :
  (QDbfTableModel_new Sample.three_hundred false
   = Some ((), Sample.big, [beginInsertRows QModelIndex.root 1 255; endInsertRows])
   ∧ polite [] Sample.big = true
   ∧ run [] Sample.big = Some Sample.big
   ∧ canFetchMore Sample.big QModelIndex.root = true)
  ∧ ∃ s' signals,
      fetchMore QModelIndex.root Sample.big = Some ((), s', signals)
      ∧ rowCount Sample.big QModelIndex.root + m_deletedRecordsCount Sample.big
        < rowCount s' QModelIndex.root + m_deletedRecordsCount s'
      ∧ rowCount s' QModelIndex.root + m_deletedRecordsCount s'
        ≤ tbl_size (m_dbfTable s').
Proof.
  assert (H1 : QDbfTableModel_new Sample.three_hundred false
               = Some ((), Sample.big,
                       [beginInsertRows QModelIndex.root 1 255; endInsertRows]))
    by (vm_compute; reflexivity).
  assert (H2 : polite [] Sample.big = true) by reflexivity.
  assert (H3 : run [] Sample.big = Some Sample.big) by reflexivity.
  assert (H4 : canFetchMore Sample.big QModelIndex.root = true)
    by (vm_compute; reflexivity).
  split; [split; [exact H1 | split; [exact H2 | split; [exact H3 | exact H4]]]|].
  exact (asked_fetch_advances _ _ _ _ _ _ _ H1 H2 H3 H4).
Defined.

Lemma polite_count_invariant_witness :
  (QDbfTableModel_new Sample.three_hundred false
   = Some ((), Sample.big, [beginInsertRows QModelIndex.root 1 255; endInsertRows])
   ∧ polite [CallData Sample.name0 Qt.EditRole] Sample.big = true
   ∧ run [CallData Sample.name0 Qt.EditRole] Sample.big = Some Sample.big)
  ∧ rowCount Sample.big QModelIndex.root + m_deletedRecordsCount Sample.big
    ≤ tbl_size (m_dbfTable Sample.big)
  ∧ m_deletedRecordsCount Sample.big
    = deleted_upto
        (rowCount Sample.big QModelIndex.root + m_deletedRecordsCount Sample.big)
        (SeqStore.records (m_dbfTable Sample.big))
  ∧ ∃ s',
      fetch_rounds
        (Z.to_nat (tbl_size (m_dbfTable Sample.big)
                   - (rowCount Sample.big QModelIndex.root
                      + m_deletedRecordsCount Sample.big)))
        Sample.big
      = Some s'
      ∧ rowCount s' QModelIndex.root + m_deletedRecordsCount s'
        = tbl_size (m_dbfTable s').
Proof.
  assert (H1 : QDbfTableModel_new Sample.three_hundred false
               = Some ((), Sample.big,
                       [beginInsertRows QModelIndex.root 1 255; endInsertRows]))
    by (vm_compute; reflexivity).
  assert (H2 : polite [CallData Sample.name0 Qt.EditRole] Sample.big = true)
    by (vm_compute; reflexivity).
  assert (H3 : run [CallData Sample.name0 Qt.EditRole] Sample.big
               = Some Sample.big)
    by (vm_compute; reflexivity).
  assert (H4 : tbl_isOpen (m_dbfTable Sample.big) = true)
    by (vm_compute; reflexivity).
  split; [split; [exact H1 | split; [exact H2 | exact H3]]|].
  destruct (polite_count_invariant Sample.three_hundred false
              [CallData Sample.name0 Qt.EditRole] Sample.big _ Sample.big
              H1 H2 H3)
    as (P1 & _ & P3 & P4).
  split; [exact P1|]. split; [exact P3|].
  destruct (P4 H4) as (_ & s' & Q1 & _ & Q3 & _).
  exists s'. split; [exact Q1 | exact Q3].
Defined.
